(** * The download queue of [models.py]

    A shallow embedding of [QueueStatus], [QueueItem], [BookInfo] and the
    [BookQueue] manager, and the properties of its operations; then the
    retry loops of [cloudflare_bypasser.py].

    Conventions of the embedding.
    - Python [dict]s are finite maps ([gmap]) keyed by the book id.
    - [queue.PriorityQueue] is the list of the entries it holds; [put] adds
      an entry and [get_nowait] removes a least one under
      [QueueItem.__lt__].  Its own mutex is not modelled: the calls are
      taken one after the other.
    - Clock readings ([time.time()], [datetime.now()]) are arguments of the
      operation that reads the clock.  The code only copies, subtracts and
      compares them, so they are integers ([datetime] and [timedelta] count
      microseconds).
    - [threading.Event] objects live in a store indexed by their identity,
      so that the flag kept in [_cancel_flags] and the one handed to the
      worker are one object.
    - [threading.Lock] is not reentrant: a call that asks for [_lock] while
      its own caller holds it never returns ([Blocks]).  Every method
      releases [_lock] before it returns, so the lock is no part of the
      state between calls. *)

From stdpp Require Import gmap strings list fin_maps sorting.

(** ** Data model *)

Inductive QueueStatus : Set :=
| QUEUED
| DOWNLOADING
| AVAILABLE
| ERROR
| DONE
| CANCELLED.

#[global] Instance QueueStatus_eq_dec : EqDecision QueueStatus.
Proof. solve_decision. Defined.

Module QueueItem.

Record t : Set := mk {
  book_id : string;
  priority : Z;
  added_time : Z
}.

(** Lower priority number first, then earlier [added_time]. *)
Definition __lt__ (self other : t) : bool :=
  if negb (priority self =? priority other)%Z
  then (priority self <? priority other)%Z
  else (added_time self <? added_time other)%Z.

(** Non-decreasing [(priority, added_time)] order: the pair of [a] is at most
    the pair of [b]. *)
Definition le (a b : t) : Prop :=
  (priority a < priority b)%Z
  ∨ (priority a = priority b ∧ (added_time a ≤ added_time b)%Z).

End QueueItem.

Module BookInfo.

Record t : Type := mk {
  id : string;
  title : string;
  preview : option string;
  author : option string;
  publisher : option string;
  year : option string;
  language : option string;
  format : option string;
  size : option string;
  info : option (list (string * list string));
  download_urls : list string;
  download_path : option string;
  priority : Z;
  progress : option QArith_base.Q
}.

Definition with_priority (p : Z) (b : t) : t :=
  mk (id b) (title b) (preview b) (author b) (publisher b) (year b)
     (language b) (format b) (size b) (info b) (download_urls b)
     (download_path b) p (progress b).

Definition with_download_path (d : option string) (b : t) : t :=
  mk (id b) (title b) (preview b) (author b) (publisher b) (year b)
     (language b) (format b) (size b) (info b) (download_urls b)
     d (priority b) (progress b).

Definition with_progress (x : option QArith_base.Q) (b : t) : t :=
  mk (id b) (title b) (preview b) (author b) (publisher b) (year b)
     (language b) (format b) (size b) (info b) (download_urls b)
     (download_path b) (priority b) x.

(** [BookInfo(id=..., title=...)]: every other field at its default. *)
Definition new (i ttl : string) : t :=
  mk i ttl None None None None None None None None [] None 0%Z None.

End BookInfo.

(** ** [queue.PriorityQueue]

    The library class, by its contract: the queue is the collection of the
    entries put and not yet taken, and [get_nowait] takes one that no other
    entry is [QueueItem.__lt__] than.  Which of several such entries the
    library takes depends on the layout of its heap; the model keeps the
    entries in the order they were put and takes the first. *)

Module PriorityQueue.

Abbreviation t := (list QueueItem.t) (only parsing).

Definition new : t := [].

Definition empty (pq : t) : bool :=
  match pq with [] => true | _ :: _ => false end.

Definition put (pq : t) (item : QueueItem.t) : t := pq ++ [item].

(** [extract_min x l] splits [x :: l] into a least entry and the others.
    Of several least entries the earliest put is taken. *)
Fixpoint extract_min (x : QueueItem.t) (l : list QueueItem.t)
  : QueueItem.t * list QueueItem.t :=
  match l with
  | [] => (x, [])
  | y :: l' =>
      let '(m, r) := extract_min y l' in
      if QueueItem.__lt__ m x then (m, x :: r) else (x, l)
  end.

(** [get_nowait]: [None] stands for the [queue.Empty] exception. *)
Definition get_nowait (pq : t) : option (QueueItem.t * t) :=
  match pq with
  | [] => None
  | x :: l => Some (extract_min x l)
  end.

End PriorityQueue.

(** ** The manager's state *)

(** A [threading.Event] by identity: its index in the store [events]. *)
Definition Event : Set := nat.

Record BookQueue : Type := mkBookQueue {
  _queue : PriorityQueue.t;
  _status : gmap string QueueStatus;
  _book_data : gmap string BookInfo.t;
  _status_timestamps : gmap string Z;
  _status_timeout : Z;
  _cancel_flags : gmap string Event;
  _active_downloads : gmap string bool;
  (** the [Event] objects created so far, each with its flag *)
  events : list bool
}.

Definition set_queue (pq : PriorityQueue.t) (q : BookQueue) : BookQueue :=
  mkBookQueue pq (_status q) (_book_data q) (_status_timestamps q)
    (_status_timeout q) (_cancel_flags q) (_active_downloads q) (events q).

Definition set_status (m : gmap string QueueStatus) (q : BookQueue) : BookQueue :=
  mkBookQueue (_queue q) m (_book_data q) (_status_timestamps q)
    (_status_timeout q) (_cancel_flags q) (_active_downloads q) (events q).

Definition set_book_data (m : gmap string BookInfo.t) (q : BookQueue) : BookQueue :=
  mkBookQueue (_queue q) (_status q) m (_status_timestamps q)
    (_status_timeout q) (_cancel_flags q) (_active_downloads q) (events q).

Definition set_status_timestamps (m : gmap string Z) (q : BookQueue) : BookQueue :=
  mkBookQueue (_queue q) (_status q) (_book_data q) m
    (_status_timeout q) (_cancel_flags q) (_active_downloads q) (events q).

Definition set_timeout (d : Z) (q : BookQueue) : BookQueue :=
  mkBookQueue (_queue q) (_status q) (_book_data q) (_status_timestamps q)
    d (_cancel_flags q) (_active_downloads q) (events q).

Definition set_cancel_flags (m : gmap string Event) (q : BookQueue) : BookQueue :=
  mkBookQueue (_queue q) (_status q) (_book_data q) (_status_timestamps q)
    (_status_timeout q) m (_active_downloads q) (events q).

Definition set_active_downloads (m : gmap string bool) (q : BookQueue) : BookQueue :=
  mkBookQueue (_queue q) (_status q) (_book_data q) (_status_timestamps q)
    (_status_timeout q) (_cancel_flags q) m (events q).

Definition set_events (l : list bool) (q : BookQueue) : BookQueue :=
  mkBookQueue (_queue q) (_status q) (_book_data q) (_status_timestamps q)
    (_status_timeout q) (_cancel_flags q) (_active_downloads q) l.

(** What a call of a method comes to: it returns a value and leaves a
    state, it raises [KeyError], or it waits for ever on [_lock]. *)
Inductive outcome (A : Type) : Type :=
| Returns (a : A) (q : BookQueue)
| Raises_KeyError
| Blocks.
Arguments Returns {A} a q.
Arguments Raises_KeyError {A}.
Arguments Blocks {A}.

(** [status in [...]] *)
Definition status_in (s : QueueStatus) (l : list QueueStatus) : bool :=
  bool_decide (s ∈ l).

(** Python truthiness of an [Optional[str]]. *)
Definition truthy (p : option string) : bool :=
  match p with
  | Some s => negb (String.eqb s "")
  | None => false
  end.

(** ** [BookQueue] *)

(** [BookQueue()]; [STATUS_TIMEOUT] (seconds) comes from [env]. *)
Definition __init__ (STATUS_TIMEOUT : Z) : BookQueue :=
  mkBookQueue PriorityQueue.new ∅ ∅ ∅ (STATUS_TIMEOUT * 1000000) ∅ ∅ [].

Definition _update_status (q : BookQueue) (book_id : string)
    (status : QueueStatus) (now : Z) : BookQueue :=
  set_status_timestamps (<[book_id := now]> (_status_timestamps q))
    (set_status (<[book_id := status]> (_status q)) q).

(** [add]; [time_time] is the reading of [time.time()], [now] the one of
    [datetime.now()]. *)
Definition add (q : BookQueue) (book_id : string) (book_data : BookInfo.t)
    (priority : Z) (time_time now : Z) : BookQueue :=
  let tracked :=
    match _status q !! book_id with
    | Some s => negb (status_in s [ERROR; DONE; CANCELLED])
    | None => false
    end in
  if tracked then q
  else
    let book_data := BookInfo.with_priority priority book_data in
    let queue_item := QueueItem.mk book_id priority time_time in
    let q := set_queue (PriorityQueue.put (_queue q) queue_item) q in
    let q := set_book_data (<[book_id := book_data]> (_book_data q)) q in
    _update_status q book_id QUEUED now.

(** The call [self.get_next()] that [get_next] makes while it holds
    [_lock]: an empty queue is seen before the lock is asked for, any
    entry is taken off the queue and then the call waits on the lock. *)
Definition get_next_holding_lock (q : BookQueue)
  : outcome (option (string * Event)) :=
  match PriorityQueue.get_nowait (_queue q) with
  | None => Returns None q
  | Some _ => Blocks
  end.

(** [get_next]: the entry is taken off the queue before [_lock] is asked
    for; [Event()] is a new object, unset; the recursive call is
    [get_next_holding_lock]. *)
Definition get_next (q : BookQueue) : outcome (option (string * Event)) :=
  match PriorityQueue.get_nowait (_queue q) with
  | None => Returns None q
  | Some (queue_item, rest) =>
      let q := set_queue rest q in
      let book_id := QueueItem.book_id queue_item in
      if bool_decide (_status q !! book_id = Some CANCELLED)
      then get_next_holding_lock q
      else
        let cancel_flag : Event := length (events q) in
        let q := set_events (events q ++ [false]) q in
        let q :=
          set_cancel_flags (<[book_id := cancel_flag]> (_cancel_flags q)) q in
        let q :=
          set_active_downloads (<[book_id := true]> (_active_downloads q)) q in
        Returns (Some (book_id, cancel_flag)) q
  end.

(** [Event.is_set()], as the worker reads its flag. *)
Definition is_set (q : BookQueue) (e : Event) : bool :=
  default false (events q !! e).

Definition update_status (q : BookQueue) (book_id : string)
    (status : QueueStatus) (now : Z) : BookQueue :=
  let q := _update_status q book_id status now in
  if status_in status [AVAILABLE; ERROR; DONE; CANCELLED]
  then
    let q := set_active_downloads (delete book_id (_active_downloads q)) q in
    set_cancel_flags (delete book_id (_cancel_flags q)) q
  else q.

Definition update_download_path (q : BookQueue) (book_id : string)
    (download_path : string) : BookQueue :=
  match _book_data q !! book_id with
  | Some b =>
      set_book_data
        (<[book_id := BookInfo.with_download_path (Some download_path) b]>
           (_book_data q)) q
  | None => q
  end.

Definition update_progress (q : BookQueue) (book_id : string)
    (progress : QArith_base.Q) : BookQueue :=
  match _book_data q !! book_id with
  | Some b =>
      set_book_data
        (<[book_id := BookInfo.with_progress (Some progress) b]>
           (_book_data q)) q
  | None => q
  end.

Definition cancel_download (q : BookQueue) (book_id : string) (now : Z)
  : bool * BookQueue :=
  let current_status := _status q !! book_id in
  if bool_decide (current_status = Some DOWNLOADING) then
    let q :=
      match _cancel_flags q !! book_id with
      | Some e => set_events (<[e := true]> (events q)) q
      | None => q
      end in
    (true, _update_status q book_id CANCELLED now)
  else if bool_decide (current_status = Some QUEUED) then
    (true, _update_status q book_id CANCELLED now)
  else (false, q).

(** [for item in items: self._queue.put(item)] *)
Definition put_all (items : list QueueItem.t) (q : BookQueue) : BookQueue :=
  set_queue (foldl PriorityQueue.put (_queue q) items) q.

(** The loop [while not self._queue.empty(): ...] of [set_priority].  Each
    round takes one entry off the queue, so [fuel] is the number of entries
    the queue holds when the loop starts. *)
Fixpoint set_priority_loop (fuel : nat) (q : BookQueue) (book_id : string)
    (new_priority : Z) (temp_items : list QueueItem.t) (found : bool)
  : BookQueue * list QueueItem.t * bool :=
  match fuel with
  | O => (q, temp_items, found)
  | S fuel =>
      match PriorityQueue.get_nowait (_queue q) with
      | None => (q, temp_items, found)
      | Some (item, rest) =>
          let q := set_queue rest q in
          if bool_decide (QueueItem.book_id item = book_id) then
            let new_item :=
              QueueItem.mk book_id new_priority (QueueItem.added_time item) in
            let q :=
              match _book_data q !! book_id with
              | Some b =>
                  set_book_data
                    (<[book_id := BookInfo.with_priority new_priority b]>
                       (_book_data q)) q
              | None => q
              end in
            set_priority_loop fuel q book_id new_priority
              (temp_items ++ [new_item]) true
          else
            set_priority_loop fuel q book_id new_priority
              (temp_items ++ [item]) found
      end
  end.

Definition set_priority (q : BookQueue) (book_id : string) (new_priority : Z)
  : bool * BookQueue :=
  if negb (bool_decide (_status q !! book_id = Some QUEUED)) then (false, q)
  else
    let '(q, temp_items, found) :=
      set_priority_loop (length (_queue q)) q book_id new_priority [] false in
    (found, put_all temp_items q).

Fixpoint reorder_queue_loop (fuel : nat) (q : BookQueue)
    (book_priorities : gmap string Z) (all_items : list QueueItem.t)
  : BookQueue * list QueueItem.t :=
  match fuel with
  | O => (q, all_items)
  | S fuel =>
      match PriorityQueue.get_nowait (_queue q) with
      | None => (q, all_items)
      | Some (item, rest) =>
          let q := set_queue rest q in
          match book_priorities !! QueueItem.book_id item with
          | Some new_priority =>
              let item :=
                QueueItem.mk (QueueItem.book_id item) new_priority
                  (QueueItem.added_time item) in
              let q :=
                match _book_data q !! QueueItem.book_id item with
                | Some b =>
                    set_book_data
                      (<[QueueItem.book_id item :=
                           BookInfo.with_priority new_priority b]>
                         (_book_data q)) q
                | None => q
                end in
              reorder_queue_loop fuel q book_priorities (all_items ++ [item])
          | None =>
              reorder_queue_loop fuel q book_priorities (all_items ++ [item])
          end
      end
  end.

Definition reorder_queue (q : BookQueue) (book_priorities : gmap string Z)
  : bool * BookQueue :=
  let '(q, all_items) :=
    reorder_queue_loop (length (_queue q)) q book_priorities [] in
  (true, put_all all_items q).

Module QueueOrderEntry.

(** One dictionary of the list [get_queue_order] returns. *)
Record t : Type := mk {
  id : string;
  title : string;
  author : option string;
  priority : Z;
  added_time : Z;
  status : QueueStatus
}.

(** [x['priority'], x['added_time']] compared as Python compares tuples. *)
Definition key_lt (a b : t) : bool :=
  (priority a <? priority b)%Z
  || ((priority a =? priority b)%Z && (added_time a <? added_time b)%Z).

Fixpoint insert (x : t) (l : list t) : list t :=
  match l with
  | [] => [x]
  | y :: l' => if key_lt x y then x :: l else y :: insert x l'
  end.

(** [sorted(queue_items, key=...)]: a stable sort. *)
Definition sorted (l : list t) : list t := foldl (λ acc x, insert x acc) [] l.

(** Non-decreasing [(priority, added_time)] order of the dictionaries. *)
Definition key_le (a b : t) : Prop :=
  (priority a < priority b)%Z
  ∨ (priority a = priority b ∧ (added_time a ≤ added_time b)%Z).

End QueueOrderEntry.

Fixpoint get_queue_order_loop (fuel : nat) (q : BookQueue)
    (temp_items : list QueueItem.t) (queue_items : list QueueOrderEntry.t)
  : BookQueue * list QueueItem.t * list QueueOrderEntry.t :=
  match fuel with
  | O => (q, temp_items, queue_items)
  | S fuel =>
      match PriorityQueue.get_nowait (_queue q) with
      | None => (q, temp_items, queue_items)
      | Some (item, rest) =>
          let q := set_queue rest q in
          let temp_items := temp_items ++ [item] in
          let queue_items :=
            match _book_data q !! QueueItem.book_id item with
            | Some book_info =>
                queue_items ++
                  [QueueOrderEntry.mk (QueueItem.book_id item)
                     (BookInfo.title book_info) (BookInfo.author book_info)
                     (QueueItem.priority item) (QueueItem.added_time item)
                     (default QUEUED (_status q !! QueueItem.book_id item))]
            | None => queue_items
            end in
          get_queue_order_loop fuel q temp_items queue_items
      end
  end.

Definition get_queue_order (q : BookQueue)
  : list QueueOrderEntry.t * BookQueue :=
  let '(q, temp_items, queue_items) :=
    get_queue_order_loop (length (_queue q)) q [] [] in
  (QueueOrderEntry.sorted queue_items, put_all temp_items q).

(** [list(self._active_downloads.keys())], as the set of its members. *)
Definition get_active_downloads (q : BookQueue) : gset string :=
  dom (_active_downloads q).

(** One round of the second loop of [clear_completed]. *)
Definition forget (q : BookQueue) (book_id : string) : BookQueue :=
  let q := set_status (delete book_id (_status q)) q in
  let q := set_status_timestamps (delete book_id (_status_timestamps q)) q in
  let q := set_book_data (delete book_id (_book_data q)) q in
  let q := set_cancel_flags (delete book_id (_cancel_flags q)) q in
  set_active_downloads (delete book_id (_active_downloads q)) q.

Definition clear_completed (q : BookQueue) : nat * BookQueue :=
  let to_remove :=
    map_fold
      (λ book_id status to_remove,
         if status_in status [DONE; ERROR; CANCELLED]
         then to_remove ++ [book_id] else to_remove)
      [] (_status q) in
  let removed_count := length to_remove in
  (removed_count, foldl forget q to_remove).

(** One round of the first loop of [refresh], for the item
    [(book_id, status)] of [_status]; [None] is the [KeyError] of
    [self._book_data[book_id]].  [path_exists] answers [Path(path).exists()],
    [current_time] is the reading taken when [refresh] starts and
    [now book_id] the one [_update_status] takes if it marks [book_id] done. *)
Definition refresh_body (path_exists : string → bool) (current_time : Z)
    (now : string → Z) (book_id : string) (status : QueueStatus)
    (st : BookQueue * list string) : option (BookQueue * list string) :=
  let '(q, to_remove) := st in
  match _book_data q !! book_id with
  | None => None
  | Some b =>
      let path := BookInfo.download_path b in
      let '(q, path) :=
        if truthy path && negb (path_exists (default "" path))
        then
          (set_book_data
             (<[book_id := BookInfo.with_download_path None b]> (_book_data q))
             q, None)
        else (q, path) in
      let q :=
        if bool_decide (status = AVAILABLE) && negb (truthy path)
        then _update_status q book_id DONE (now book_id)
        else q in
      let last_update := _status_timestamps q !! book_id in
      let to_remove :=
        match last_update with
        | Some t =>
            if (current_time - t >? _status_timeout q)%Z
               && status_in status [DONE; ERROR; AVAILABLE; CANCELLED]
            then to_remove ++ [book_id]
            else to_remove
        | None => to_remove
        end in
      Some (q, to_remove)
  end.

(** [for book_id, status in self._status.items(): ...] *)
Definition refresh_scan (path_exists : string → bool) (current_time : Z)
    (now : string → Z) (q : BookQueue) : option (BookQueue * list string) :=
  map_fold
    (λ book_id status acc,
       acc ≫= refresh_body path_exists current_time now book_id status)
    (Some (q, [])) (_status q).

(** One round of the second loop of [refresh]; [del] raises [KeyError] on a
    key the dictionary does not hold. *)
Definition refresh_remove (q : BookQueue) (book_id : string)
  : option BookQueue :=
  match _status q !! book_id with
  | None => None
  | Some _ =>
      let q := set_status (delete book_id (_status q)) q in
      match _status_timestamps q !! book_id with
      | None => None
      | Some _ =>
          let q :=
            set_status_timestamps (delete book_id (_status_timestamps q)) q in
          match _book_data q !! book_id with
          | Some _ => Some (set_book_data (delete book_id (_book_data q)) q)
          | None => Some q
          end
      end
  end.

Definition refresh (q : BookQueue) (path_exists : string → bool)
    (current_time : Z) (now : string → Z) : outcome unit :=
  match refresh_scan path_exists current_time now q with
  | None => Raises_KeyError
  | Some (q, to_remove) =>
      match foldl (λ acc book_id, acc ≫= λ q, refresh_remove q book_id)
              (Some q) to_remove with
      | None => Raises_KeyError
      | Some q => Returns () q
      end
  end.

(** [get_status]: the dictionary it returns, as a function of the status. *)
Definition get_status (q : BookQueue) (path_exists : string → bool)
    (current_time : Z) (now : string → Z)
  : outcome (QueueStatus → gmap string BookInfo.t) :=
  match refresh q path_exists current_time now with
  | Returns _ q =>
      let result :=
        map_fold
          (λ book_id status (result : QueueStatus → gmap string BookInfo.t),
             match _book_data q !! book_id with
             | Some b =>
                 λ s, if bool_decide (s = status)
                      then <[book_id := b]> (result s) else result s
             | None => result
             end)
          (λ _, ∅) (_status q) in
      Returns result q
  | Raises_KeyError => Raises_KeyError
  | Blocks => Blocks
  end.

(** [timedelta(hours=hours)] *)
Definition set_status_timeout (q : BookQueue) (hours : Z) : BookQueue :=
  set_timeout (hours * 3600 * 1000000) q.

(** ** Runs of the public methods *)

Inductive call : Type :=
| Add (book_id : string) (book_data : BookInfo.t) (priority : Z)
    (time_time now : Z)
| GetNext
| UpdateStatus (book_id : string) (status : QueueStatus) (now : Z)
| UpdateDownloadPath (book_id : string) (download_path : string)
| UpdateProgress (book_id : string) (progress : QArith_base.Q)
| GetStatus (path_exists : string → bool) (current_time : Z) (now : string → Z)
| GetQueueOrder
| CancelDownload (book_id : string) (now : Z)
| SetPriority (book_id : string) (new_priority : Z)
| ReorderQueue (book_priorities : gmap string Z)
| GetActiveDownloads
| ClearCompleted
| Refresh (path_exists : string → bool) (current_time : Z) (now : string → Z)
| SetStatusTimeout (hours : Z).

Definition state_of {A} (o : outcome A) : option BookQueue :=
  match o with
  | Returns _ q => Some q
  | Raises_KeyError | Blocks => None
  end.

(** The state a call leaves when it returns; a run goes no further than a
    call that raises or never returns. *)
Definition run_call (q : BookQueue) (c : call) : option BookQueue :=
  match c with
  | Add book_id book_data priority time_time now =>
      Some (add q book_id book_data priority time_time now)
  | GetNext => state_of (get_next q)
  | UpdateStatus book_id status now => Some (update_status q book_id status now)
  | UpdateDownloadPath book_id p => Some (update_download_path q book_id p)
  | UpdateProgress book_id x => Some (update_progress q book_id x)
  | GetStatus path_exists current_time now =>
      state_of (get_status q path_exists current_time now)
  | GetQueueOrder => Some (get_queue_order q).2
  | CancelDownload book_id now => Some (cancel_download q book_id now).2
  | SetPriority book_id new_priority =>
      Some (set_priority q book_id new_priority).2
  | ReorderQueue book_priorities => Some (reorder_queue q book_priorities).2
  | GetActiveDownloads => Some q
  | ClearCompleted => Some (clear_completed q).2
  | Refresh path_exists current_time now =>
      state_of (refresh q path_exists current_time now)
  | SetStatusTimeout hours => Some (set_status_timeout q hours)
  end.

Definition run (q : BookQueue) (cs : list call) : option BookQueue :=
  foldl (λ acc c, acc ≫= λ q, run_call q c) (Some q) cs.


(** [n] calls of [get_next] in a row, with what each returned. *)
Fixpoint get_next_n (n : nat) (q : BookQueue)
  : outcome (list (option (string * Event))) :=
  match n with
  | O => Returns [] q
  | S n =>
      match get_next q with
      | Returns r q =>
          match get_next_n n q with
          | Returns rs q => Returns (r :: rs) q
          | Raises_KeyError => Raises_KeyError
          | Blocks => Blocks
          end
      | Raises_KeyError => Raises_KeyError
      | Blocks => Blocks
      end
  end.

(** ** Auxiliary notions for the statements *)

(** The arguments of one [add] call, clock readings included. *)
Record add_args : Type := mk_add_args {
  arg_book_id : string;
  arg_book_data : BookInfo.t;
  arg_priority : Z;
  arg_time_time : Z;
  arg_now : Z
}.

(** A sequence of [add] calls. *)
Definition add_all (q : BookQueue) (calls : list add_args) : BookQueue :=
  foldl
    (λ q a,
       add q (arg_book_id a) (arg_book_data a) (arg_priority a)
         (arg_time_time a) (arg_now a))
    q calls.

(** The book ids a list of [get_next] results names. *)
Definition returned_ids (rs : list (option (string * Event)))
  : list (option string) :=
  map (option_map fst) rs.

(** Every job that has a status is [queued] and has an entry on the queue. *)
Definition only_queued (q : BookQueue) : Prop :=
  ∀ id s, _status q !! id = Some s →
    s = QUEUED ∧ id ∈ map QueueItem.book_id (_queue q).

(** The entry [it] carries the id, the priority and the [time.time()]
    reading of one of the [add] calls. *)
Definition from_call (calls : list add_args) (it : QueueItem.t) : Prop :=
  ∃ a, a ∈ calls
       ∧ arg_book_id a = QueueItem.book_id it
       ∧ arg_priority a = QueueItem.priority it
       ∧ arg_time_time a = QueueItem.added_time it.

(** [same_flags q q']: [q'] has the cancellation flags, the active-download
    set and the [Event] store of [q]. *)
Definition same_flags (q q' : BookQueue) : Prop :=
  _cancel_flags q' = _cancel_flags q
  ∧ _active_downloads q' = _active_downloads q
  ∧ events q' = events q.


(** The entry [set_priority] writes back for [item]. *)
Definition reprioritize (book_id : string) (new_priority : Z)
    (item : QueueItem.t) : QueueItem.t :=
  if bool_decide (QueueItem.book_id item = book_id)
  then QueueItem.mk book_id new_priority (QueueItem.added_time item)
  else item.

(** [self._book_data[book_id].priority = new_priority], if the id is known. *)
Definition set_book_priority (book_id : string) (new_priority : Z)
    (m : gmap string BookInfo.t) : gmap string BookInfo.t :=
  match m !! book_id with
  | Some b => <[book_id := BookInfo.with_priority new_priority b]> m
  | None => m
  end.

(** The metadata [refresh] leaves for a job it has looked at: the download
    path is dropped when it names nothing that exists. *)
Definition scan_info (path_exists : string → bool) (b : BookInfo.t)
  : BookInfo.t :=
  if truthy (BookInfo.download_path b)
     && negb (path_exists (default "" (BookInfo.download_path b)))
  then BookInfo.with_download_path None b
  else b.

(** [refresh] marks the job done: it is [available] and has no download
    path left. *)
Definition marks_done (path_exists : string → bool) (q : BookQueue)
    (book_id : string) (status : QueueStatus) : bool :=
  bool_decide (status = AVAILABLE)
  && match _book_data q !! book_id with
     | Some b => negb (truthy (BookInfo.download_path (scan_info path_exists b)))
     | None => false
     end.

(** The timestamp [refresh] compares with the timeout: the one of the
    demotion for a job it has just marked done, the recorded one otherwise. *)
Definition last_update (path_exists : string → bool) (now : string → Z)
    (q : BookQueue) (book_id : string) (status : QueueStatus) : option Z :=
  if marks_done path_exists q book_id status then Some (now book_id)
  else _status_timestamps q !! book_id.




(** The dictionary [get_queue_order] builds for a queue entry whose id has
    metadata. *)
Definition order_entry (q : BookQueue) (item : QueueItem.t)
  : option QueueOrderEntry.t :=
  (λ book_info,
     QueueOrderEntry.mk (QueueItem.book_id item) (BookInfo.title book_info)
       (BookInfo.author book_info) (QueueItem.priority item)
       (QueueItem.added_time item)
       (default QUEUED (_status q !! QueueItem.book_id item)))
  <$> _book_data q !! QueueItem.book_id item.

(** The entry [reorder_queue] writes back for [item]. *)
Definition reprioritize_all (book_priorities : gmap string Z)
    (item : QueueItem.t) : QueueItem.t :=
  match book_priorities !! QueueItem.book_id item with
  | Some new_priority =>
      QueueItem.mk (QueueItem.book_id item) new_priority
        (QueueItem.added_time item)
  | None => item
  end.

(** The metadata after [reorder_queue] has gone through the entries
    [items]. *)
Definition reprioritize_book_data (book_priorities : gmap string Z)
    (items : list QueueItem.t) (m : gmap string BookInfo.t)
  : gmap string BookInfo.t :=
  foldl
    (λ m item,
       match book_priorities !! QueueItem.book_id item with
       | Some new_priority =>
           set_book_priority (QueueItem.book_id item) new_priority m
       | None => m
       end)
    m items.

(** * The retry loops of [cloudflare_bypasser.py]

    The browser is outside the program: what it answers is given as the
    list of the answers, one for each round of the loop that asks.  A call
    that has used up the list is still running ([None]).  The depth of the
    interpreter's stack is not modelled. *)

(** What [_bypass] does that the caller can see. *)
Inductive action : Type :=
| Sleep (seconds : Z)
| Call (method_index : Z).

(** One round of the loop of [_bypass]: what [_is_bypassed(sb)] reads at
    the head of the loop, and what the method returns if it is called
    ([None]: it raises, which [_bypass] catches). *)
Record observation : Type := mkObservation {
  page_bypassed : bool;
  method_result : option bool
}.

(** [while not _is_bypassed(sb): ...] of [_bypass]; [methods] has three
    entries. *)
Fixpoint _bypass_loop (world : list observation) (max_retries : Z)
    (DEFAULT_SLEEP : Z) (try_count : Z) (log : list action)
  : option (list action) :=
  match world with
  | [] => None
  | o :: world =>
      if page_bypassed o then Some log
      else if (try_count >=? max_retries)%Z then Some log
      else
        let method_index := (try_count `mod` 3)%Z in
        let try_count := (try_count + 1)%Z in
        let wait_time := Z.min (DEFAULT_SLEEP * (try_count - 1)) 15 in
        let log := if (wait_time >? 0)%Z then log ++ [Sleep wait_time]
                   else log in
        let log := log ++ [Call method_index] in
        match method_result o with
        | Some true => Some log
        | Some false | None =>
            _bypass_loop world max_retries DEFAULT_SLEEP try_count log
        end
  end.

Definition _bypass (world : list observation) (max_retries : Z)
    (DEFAULT_SLEEP : Z) : option (list action) :=
  _bypass_loop world max_retries DEFAULT_SLEEP 0 [].

(** What one pass through the [try] statement of [_get] comes to: the
    page is through and [sb.page_source] is returned, or the [try] block
    ends with the page still not through, or something in it raises. *)
Inductive attempt : Type :=
| Bypassed (page_source : string)
| Not_bypassed
| Exception_raised.

Inductive get_outcome : Type :=
| Page (page_source : string)
| Raised.

(** [_get]; the call [_get(url, retry - 1)] is the last statement of the
    function, reached from the end of the [try] block and from the end of
    the [except] block. *)
Fixpoint _get (world : list attempt) (retry : Z) : option get_outcome :=
  match world with
  | [] => None
  | a :: world =>
      match a with
      | Bypassed page_source => Some (Page page_source)
      | Not_bypassed => _get world (retry - 1)
      | Exception_raised =>
          if (retry =? 0)%Z then Some Raised else _get world (retry - 1)
      end
  end.

(** The actions of the attempt number [k] (from 0) of [_bypass], and those
    of its first [n] attempts. *)
Definition attempt_actions (DEFAULT_SLEEP : Z) (k : nat) : list action :=
  let wait_time := Z.min (DEFAULT_SLEEP * Z.of_nat k) 15 in
  (if (wait_time >? 0)%Z then [Sleep wait_time] else [])
  ++ [Call (Z.of_nat k `mod` 3)%Z].

Definition schedule (DEFAULT_SLEEP : Z) (first n : nat) : list action :=
  concat (map (attempt_actions DEFAULT_SLEEP) (seq first n)).

Definition is_page (a : attempt) : bool :=
  match a with Bypassed _ => true | _ => false end.




(** * Properties *)



(** ** The priority queue *)

Lemma QueueItem_lt_false_le (a b : QueueItem.t) :
  QueueItem.__lt__ b a = false ↔ QueueItem.le a b.
Proof.
  unfold QueueItem.__lt__, QueueItem.le.
  destruct (Z.eqb_spec (QueueItem.priority b) (QueueItem.priority a)) as [e|n];
    simpl.
  - rewrite Z.ltb_ge. split; [intros; right; split; [done|lia] | lia].
  - rewrite Z.ltb_ge. split; [intros; left; lia | lia].
Qed.

Lemma QueueItem_lt_true_not_le (a b : QueueItem.t) :
  QueueItem.__lt__ b a = true → ¬ QueueItem.le a b.
Proof.
  intros H Hle. apply QueueItem_lt_false_le in Hle. congruence.
Qed.

Lemma QueueItem_le_refl (a : QueueItem.t) : QueueItem.le a a.
Proof. right. split; [done | lia]. Qed.

Lemma QueueItem_le_trans (a b c : QueueItem.t) :
  QueueItem.le a b → QueueItem.le b c → QueueItem.le a c.
Proof. unfold QueueItem.le. lia. Qed.

Lemma QueueItem_le_total (a b : QueueItem.t) :
  QueueItem.le a b ∨ QueueItem.le b a.
Proof. unfold QueueItem.le. lia. Qed.

Create HintDb queue_order.
#[local] Hint Resolve QueueItem_le_refl QueueItem_le_trans : queue_order.

Lemma extract_min_perm (l : list QueueItem.t) :
  ∀ x m r, PriorityQueue.extract_min x l = (m, r) → x :: l ≡ₚ m :: r.
Proof.
  induction l as [|y l IH]; intros x m r; simpl.
  - intros [= <- <-]. done.
  - destruct (PriorityQueue.extract_min y l) as [m' r'] eqn:E.
    specialize (IH _ _ _ E).
    destruct (QueueItem.__lt__ m' x); intros [= <- <-]; [|done].
    rewrite IH. apply perm_swap.
Qed.

Lemma extract_min_least (l : list QueueItem.t) :
  ∀ x m r, PriorityQueue.extract_min x l = (m, r) →
    Forall (QueueItem.le m) (x :: l).
Proof.
  induction l as [|y l IH]; intros x m r; simpl.
  - intros [= <- <-]. constructor; [auto with queue_order | constructor].
  - destruct (PriorityQueue.extract_min y l) as [m' r'] eqn:E.
    specialize (IH _ _ _ E).
    destruct (QueueItem.__lt__ m' x) eqn:Hlt; intros [= <- <-].
    + constructor; [|done].
      destruct (QueueItem_le_total m' x) as [?|Hx]; [done|].
      by apply QueueItem_lt_true_not_le in Hlt.
    + apply QueueItem_lt_false_le in Hlt.
      constructor; [auto with queue_order|].
      eapply Forall_impl; [exact IH|]. intros z Hz.
      eauto with queue_order.
Qed.

Lemma extract_min_length (l : list QueueItem.t) x m r :
  PriorityQueue.extract_min x l = (m, r) → length r = length l.
Proof.
  intros H. apply extract_min_perm, Permutation_length in H.
  simpl in H. lia.
Qed.

Lemma get_nowait_Some (pq : PriorityQueue.t) m r :
  PriorityQueue.get_nowait pq = Some (m, r) →
  pq ≡ₚ m :: r ∧ Forall (QueueItem.le m) pq ∧ length pq = S (length r).
Proof.
  destruct pq as [|x l]; simpl; [done|]. intros [= H].
  split; [by apply extract_min_perm|].
  split; [by eapply extract_min_least|].
  by rewrite (extract_min_length _ _ _ _ H).
Qed.

Lemma get_nowait_None (pq : PriorityQueue.t) :
  PriorityQueue.get_nowait pq = None ↔ pq = [].
Proof. destruct pq; simpl; split; congruence. Qed.

(** ** [get_next] on a queue without cancelled jobs *)

Lemma get_next_Some (q : BookQueue) m r :
  PriorityQueue.get_nowait (_queue q) = Some (m, r) →
  _status q !! QueueItem.book_id m ≠ Some CANCELLED →
  get_next q =
    Returns (Some (QueueItem.book_id m, length (events q)))
      (mkBookQueue r (_status q) (_book_data q) (_status_timestamps q)
         (_status_timeout q)
         (<[QueueItem.book_id m := length (events q)]> (_cancel_flags q))
         (<[QueueItem.book_id m := true]> (_active_downloads q))
         (events q ++ [false])).
Proof.
  intros Hget Hst. unfold get_next. rewrite Hget. simpl.
  by rewrite bool_decide_eq_false_2.
Qed.

Lemma get_next_empty (q : BookQueue) :
  _queue q = [] → get_next q = Returns None q.
Proof. intros H. unfold get_next. by rewrite H. Qed.

Lemma get_next_n_sorted (n : nat) :
  ∀ q, length (_queue q) = n →
    (∀ id, _status q !! id ≠ Some CANCELLED) →
    ∃ items rs q',
      get_next_n n q = Returns rs q'
      ∧ _queue q' = []
      ∧ items ≡ₚ _queue q
      ∧ StronglySorted QueueItem.le items
      ∧ returned_ids rs = map (λ it, Some (QueueItem.book_id it)) items.
Proof.
  induction n as [|n IH]; intros q Hlen Hst.
  - exists [], [], q. simpl. destruct (_queue q); [|done].
    repeat split; constructor.
  - destruct (PriorityQueue.get_nowait (_queue q)) as [[m r]|] eqn:Hget.
    2:{ apply get_nowait_None in Hget. rewrite Hget in Hlen. done. }
    destruct (get_nowait_Some _ _ _ Hget) as (Hperm & Hleast & Hl).
    set (q1 := mkBookQueue r (_status q) (_book_data q) (_status_timestamps q)
         (_status_timeout q)
         (<[QueueItem.book_id m := length (events q)]> (_cancel_flags q))
         (<[QueueItem.book_id m := true]> (_active_downloads q))
         (events q ++ [false])).
    destruct (IH q1) as (items & rs & q' & Hrun & Hq' & Hitems & Hsorted & Hids).
    { simpl. lia. }
    { done. }
    exists (m :: items), (Some (QueueItem.book_id m, length (events q)) :: rs), q'.
    simpl. rewrite (get_next_Some q m r Hget (Hst _)). fold q1. rewrite Hrun.
    split; [done|]. split; [done|].
    split; [by rewrite Hperm, Hitems|].
    split; [|by rewrite <- Hids].
    constructor; [done|].
    rewrite Hitems. rewrite Hperm in Hleast. by inversion Hleast.
Qed.

(** ** States built by [add] alone *)

Lemma add_tracked (q : BookQueue) id d p t now :
  is_Some (_status (add q id d p t now) !! id).
Proof.
  unfold add. destruct (_status q !! id) as [s|] eqn:E; simpl.
  - destruct (negb _); simpl; [by rewrite E|].
    rewrite lookup_insert_eq. by eexists.
  - rewrite lookup_insert_eq. by eexists.
Qed.

Lemma add_status_mono (q : BookQueue) id d p t now id' :
  is_Some (_status q !! id') → is_Some (_status (add q id d p t now) !! id').
Proof.
  intros H. unfold add.
  destruct (match _status q !! id with Some s => _ | None => _ end); [done|].
  simpl. destruct (decide (id = id')) as [->|Hne].
  - rewrite lookup_insert_eq. by eexists.
  - by rewrite lookup_insert_ne.
Qed.

Lemma add_only_queued (q : BookQueue) id d p t now :
  only_queued q → only_queued (add q id d p t now).
Proof.
  intros Hq. unfold add.
  destruct (match _status q !! id with Some s => _ | None => _ end); [done|].
  intros id' s. simpl. unfold PriorityQueue.put. rewrite map_app. simpl.
  destruct (decide (id = id')) as [->|Hne].
  - rewrite lookup_insert_eq. intros [= <-]. split; [done|].
    apply elem_of_app. right. by apply list_elem_of_singleton.
  - rewrite lookup_insert_ne by done. intros H.
    destruct (Hq _ _ H) as [-> Hin]. split; [done|].
    apply elem_of_app. by left.
Qed.

Lemma add_queue_from_call (q : BookQueue) a calls :
  Forall (from_call calls) (_queue q) →
  Forall (from_call (calls ++ [a]))
    (_queue (add q (arg_book_id a) (arg_book_data a) (arg_priority a)
               (arg_time_time a) (arg_now a))).
Proof.
  intros H.
  assert (Forall (from_call (calls ++ [a])) (_queue q)) as H'.
  { eapply Forall_impl; [exact H|]. intros it (b & Hb & ?).
    exists b. split; [|done]. apply elem_of_app. by left. }
  unfold add.
  destruct (match _status q !! _ with Some s => _ | None => _ end); [done|].
  simpl. unfold PriorityQueue.put. apply Forall_app. split; [done|].
  constructor; [|constructor]. exists a. split; [|done].
  apply elem_of_app. right. by apply list_elem_of_singleton.
Qed.

Lemma add_all_snoc (q : BookQueue) calls a :
  add_all q (calls ++ [a]) =
  add (add_all q calls) (arg_book_id a) (arg_book_data a) (arg_priority a)
    (arg_time_time a) (arg_now a).
Proof. unfold add_all. by rewrite foldl_app. Qed.

Lemma add_all_new (T : Z) (calls : list add_args) :
  only_queued (add_all (__init__ T) calls)
  ∧ Forall (from_call calls) (_queue (add_all (__init__ T) calls))
  ∧ ∀ a, a ∈ calls →
         is_Some (_status (add_all (__init__ T) calls) !! arg_book_id a).
Proof.
  induction calls as [|a calls IH] using rev_ind.
  - split; [|split].
    + intros id s. simpl. by rewrite lookup_empty.
    + constructor.
    + intros a Ha. by apply elem_of_nil in Ha.
  - destruct IH as (Hq & Hfrom & Htracked). rewrite add_all_snoc.
    split; [by apply add_only_queued|].
    split; [by apply add_queue_from_call|].
    intros b [Hb|Hb]%elem_of_app.
    + by apply add_status_mono, Htracked.
    + apply list_elem_of_singleton in Hb as ->. apply add_tracked.
Qed.

(** C1.  After any sequence of [add] calls on a new queue, as many
    [get_next] calls as the queue holds entries all return, and the ids they
    return are those of the entries in non-decreasing
    [(priority, added_time)] order: the order of a list [items] that holds
    the queue's entries, each with the priority and time of an [add] call,
    sorted by [QueueItem.le].  Every id that was added is returned, and the
    call after these finds the queue empty. *)
Theorem get_next_priority_order (STATUS_TIMEOUT : Z) (calls : list add_args) :
  let q := add_all (__init__ STATUS_TIMEOUT) calls in
  ∃ items rs q',
    get_next_n (length (_queue q)) q = Returns rs q'
    ∧ get_next q' = Returns None q'
    ∧ items ≡ₚ _queue q
    ∧ Forall (from_call calls) items
    ∧ StronglySorted QueueItem.le items
    ∧ returned_ids rs = map (λ it, Some (QueueItem.book_id it)) items
    ∧ ∀ a, a ∈ calls → Some (arg_book_id a) ∈ returned_ids rs.
Proof.
  intros q.
  destruct (add_all_new STATUS_TIMEOUT calls) as (Hq & Hfrom & Htracked).
  fold q in Hq, Hfrom, Htracked.
  destruct (get_next_n_sorted (length (_queue q)) q eq_refl)
    as (items & rs & q' & Hrun & Hempty & Hperm & Hsorted & Hids).
  { intros id Hc. by destruct (Hq _ _ Hc). }
  exists items, rs, q'.
  split; [done|]. split; [by apply get_next_empty|]. split; [done|].
  split; [by rewrite Hperm|]. split; [done|]. split; [done|].
  intros a Ha. destruct (Htracked a Ha) as [s Hs].
  destruct (Hq _ _ Hs) as [_ Hin]. rewrite Hids.
  apply list_elem_of_fmap in Hin as (it & -> & Hit).
  apply list_elem_of_fmap. exists it. split; [done|]. by rewrite Hperm.
Qed.

(** ** [cancel_download] *)

Lemma cancel_download_true (q : BookQueue) id now :
  (cancel_download q id now).1 = true ↔
  _status q !! id = Some QUEUED ∨ _status q !! id = Some DOWNLOADING.
Proof.
  unfold cancel_download.
  repeat case_bool_decide; simpl; split; intros Hx; try done; auto.
  destruct Hx; congruence.
Qed.

Lemma cancel_download_status (q : BookQueue) id now :
  (cancel_download q id now).1 = true →
  _status (cancel_download q id now).2 !! id = Some CANCELLED.
Proof.
  unfold cancel_download.
  repeat case_bool_decide; simpl; try done; intros _.
  - destruct (_cancel_flags q !! id); simpl; apply lookup_insert_eq.
  - apply lookup_insert_eq.
Qed.

Lemma cancel_download_false (q : BookQueue) id now :
  (cancel_download q id now).1 = false → (cancel_download q id now).2 = q.
Proof. unfold cancel_download. by repeat case_bool_decide. Qed.

(** C5.  [cancel_download] returns true exactly when the job's status is
    [queued] or [downloading], and then leaves it [cancelled]; on any other
    status, and on an id without status, it returns false and the state is
    the one it was given.  A second call on the same id right after the
    first returns false and changes nothing. *)
Theorem cancel_download_idempotent (q : BookQueue) (book_id : string) (now : Z) :
  let r := cancel_download q book_id now in
  (r.1 = true ↔
     _status q !! book_id = Some QUEUED
     ∨ _status q !! book_id = Some DOWNLOADING)
  ∧ (r.1 = true → _status r.2 !! book_id = Some CANCELLED)
  ∧ (r.1 = false → r.2 = q)
  ∧ ∀ now', cancel_download r.2 book_id now' = (false, r.2).
Proof.
  intros r. split; [apply cancel_download_true|].
  split; [apply cancel_download_status|].
  split; [apply cancel_download_false|].
  intros now'.
  assert ((cancel_download r.2 book_id now').1 = false) as Hf.
  { destruct (r.1) eqn:E.
    - apply cancel_download_status in E.
      destruct (cancel_download r.2 book_id now').1 eqn:E'; [|done].
      apply cancel_download_true in E'. fold r in E. destruct E'; congruence.
    - pose proof (cancel_download_false _ _ _ E) as Hq. fold r in Hq.
      rewrite Hq.
      destruct (cancel_download q book_id now').1 eqn:E'; [|done].
      apply cancel_download_true in E'.
      apply (cancel_download_true q book_id now) in E'. fold r in E'.
      congruence. }
  pose proof (cancel_download_false _ _ _ Hf) as Hq.
  destruct (cancel_download r.2 book_id now') as [b q']. simpl in *. by subst.
Qed.

(** ** [add] *)





(** ** [get_next] and the status map *)







(** ** The cancellation flag *)




(** ** What the loops leave alone *)

Lemma same_flags_refl (q : BookQueue) : same_flags q q.
Proof. done. Qed.

Lemma same_flags_trans (q1 q2 q3 : BookQueue) :
  same_flags q1 q2 → same_flags q2 q3 → same_flags q1 q3.
Proof. unfold same_flags. intros (-> & -> & ->) (-> & -> & ->). done. Qed.

Lemma set_priority_loop_flags (fuel : nat) :
  ∀ q id p temp found,
    same_flags q (set_priority_loop fuel q id p temp found).1.1.
Proof.
  induction fuel as [|fuel IH]; intros q id p temp found; simpl; [done|].
  destruct (PriorityQueue.get_nowait (_queue q)) as [[item rest]|]; [|done].
  case_bool_decide.
  - eapply same_flags_trans; [|apply IH].
    simpl. by destruct (_book_data q !! id).
  - eapply same_flags_trans; [|apply IH]. done.
Qed.

Lemma reorder_queue_loop_flags (fuel : nat) :
  ∀ q bp items, same_flags q (reorder_queue_loop fuel q bp items).1.
Proof.
  induction fuel as [|fuel IH]; intros q bp items; simpl; [done|].
  destruct (PriorityQueue.get_nowait (_queue q)) as [[item rest]|]; [|done].
  destruct (bp !! QueueItem.book_id item).
  - eapply same_flags_trans; [|apply IH].
    simpl. by destruct (_book_data q !! QueueItem.book_id item).
  - eapply same_flags_trans; [|apply IH]. done.
Qed.

Lemma get_queue_order_loop_flags (fuel : nat) :
  ∀ q temp items, same_flags q (get_queue_order_loop fuel q temp items).1.1.
Proof.
  induction fuel as [|fuel IH]; intros q temp items; simpl; [done|].
  destruct (PriorityQueue.get_nowait (_queue q)) as [[item rest]|]; [|done].
  eapply same_flags_trans; [|apply IH]. done.
Qed.

Lemma refresh_body_flags fs ct now id s q tr q' tr' :
  refresh_body fs ct now id s (q, tr) = Some (q', tr') → same_flags q q'.
Proof.
  unfold refresh_body. destruct (_book_data q !! id) as [b|]; [|done].
  destruct (truthy (BookInfo.download_path b) && negb (fs _));
    destruct (bool_decide (s = AVAILABLE) && negb (truthy _));
    by intros [= <- _].
Qed.

Lemma refresh_scan_flags fs ct now q q' tr :
  refresh_scan fs ct now q = Some (q', tr) → same_flags q q'.
Proof.
  unfold refresh_scan. revert q' tr.
  apply (map_fold_weak_ind
    (λ acc _, ∀ q' tr, acc = Some (q', tr) → same_flags q q')).
  - by intros q' tr [= <- _].
  - intros id s m acc _ IH q' tr.
    destruct acc as [[q1 tr1]|]; [|done]. simpl.
    intros Hb%refresh_body_flags.
    eapply same_flags_trans; [by eapply IH | done].
Qed.

Lemma refresh_remove_flags q id q' :
  refresh_remove q id = Some q' → same_flags q q'.
Proof.
  unfold refresh_remove. destruct (_status q !! id); [|done]. simpl.
  destruct (_status_timestamps q !! id); [|done]. simpl.
  destruct (_book_data q !! id); by intros [= <-].
Qed.

Lemma refresh_remove_all_flags (l : list string) :
  ∀ q q',
    foldl (λ acc id, acc ≫= λ q, refresh_remove q id) (Some q) l = Some q' →
    same_flags q q'.
Proof.
  induction l as [|id l IH] using rev_ind; intros q q'.
  - by intros [= <-].
  - rewrite foldl_app. simpl.
    destruct (foldl _ (Some q) l) as [q1|] eqn:E; [|done]. simpl.
    intros Hr%refresh_remove_flags.
    eapply same_flags_trans; [by apply IH | done].
Qed.

Lemma refresh_flags q fs ct now u q' :
  refresh q fs ct now = Returns u q' → same_flags q q'.
Proof.
  unfold refresh.
  destruct (refresh_scan fs ct now q) as [[q1 tr]|] eqn:Hs; [|done].
  destruct (foldl _ (Some q1) tr) as [q2|] eqn:Hr; [|done].
  intros [= _ <-].
  eapply same_flags_trans;
    [by eapply refresh_scan_flags | by eapply refresh_remove_all_flags].
Qed.







(** ** Updates that name an unknown id *)

Lemma update_progress_unknown (q : BookQueue) id x :
  _book_data q !! id = None → update_progress q id x = q.
Proof. intros H. unfold update_progress. by rewrite H. Qed.

Lemma update_download_path_unknown (q : BookQueue) id p :
  _book_data q !! id = None → update_download_path q id p = q.
Proof. intros H. unfold update_download_path. by rewrite H. Qed.

(** C7 at the failing input: on a new queue, where no id is known,
    [update_status] of the id [ghost] is not ignored: it records a status
    and a timestamp for it, without metadata. *)
Theorem update_status_unknown_id_is_recorded :
  let q := __init__ 3600 in
  let q' := update_status q "ghost" DONE 7 in
  _status q !! "ghost" = None
  ∧ _book_data q !! "ghost" = None
  ∧ _status q' !! "ghost" = Some DONE
  ∧ _status_timestamps q' !! "ghost" = Some 7%Z
  ∧ _book_data q' !! "ghost" = None
  ∧ q' ≠ q.
Proof.
  repeat split; try (vm_compute; reflexivity).
  intros H. apply (f_equal (λ q, _status q !! "ghost")) in H.
  vm_compute in H. discriminate.
Qed.

(** C10 at the failing input: a job cancelled while queued and cleared is
    still handed out by [get_next]; when the worker reports [downloading]
    for it the status map names an id without metadata, and the next
    [refresh] (and [get_status]) raises [KeyError]. *)
Theorem refresh_raises_KeyError :
  let calls :=
    [Add "X" (BookInfo.new "X" "x") 0 1 1; CancelDownload "X" 2;
     ClearCompleted; GetNext; UpdateStatus "X" DOWNLOADING 3] in
  ∃ q,
    run (__init__ 3600) calls = Some q
    ∧ _status q !! "X" = Some DOWNLOADING
    ∧ _book_data q !! "X" = None
    ∧ refresh q (λ _, true) 4 (λ _, 4%Z) = Raises_KeyError
    ∧ get_status q (λ _, true) 4 (λ _, 4%Z) = Raises_KeyError.
Proof.
  eexists. split; [vm_compute; reflexivity|].
  repeat split; vm_compute; reflexivity.
Qed.

(** ** [set_priority] *)

Lemma set_book_priority_idemp id p (m : gmap string BookInfo.t) :
  set_book_priority id p (set_book_priority id p m) = set_book_priority id p m.
Proof.
  unfold set_book_priority. destruct (m !! id) as [b|] eqn:E.
  - rewrite lookup_insert_eq. by rewrite insert_insert_eq.
  - by rewrite E.
Qed.

Lemma foldl_put (items pq : list QueueItem.t) :
  foldl PriorityQueue.put pq items = pq ++ items.
Proof.
  revert pq. induction items as [|x items IH]; intros pq; simpl.
  - by rewrite app_nil_r.
  - rewrite IH. unfold PriorityQueue.put. by rewrite <- app_assoc.
Qed.

Lemma set_priority_loop_spec (fuel : nat) :
  ∀ q id p temp found,
    length (_queue q) ≤ fuel →
    ∃ drained,
      drained ≡ₚ _queue q
      ∧ set_priority_loop fuel q id p temp found =
        (mkBookQueue [] (_status q)
           (if bool_decide (id ∈ map QueueItem.book_id drained)
            then set_book_priority id p (_book_data q) else _book_data q)
           (_status_timestamps q) (_status_timeout q) (_cancel_flags q)
           (_active_downloads q) (events q),
         temp ++ map (reprioritize id p) drained,
         found || bool_decide (id ∈ map QueueItem.book_id drained)).
Proof.
  induction fuel as [|fuel IH]; intros q id p temp found Hlen.
  - exists []. destruct q as [pq ? ? ? ? ? ? ?]. simpl in *.
    destruct pq; [|simpl in Hlen; lia].
    split; [done|]. by rewrite app_nil_r, orb_false_r.
  - simpl.
    destruct (PriorityQueue.get_nowait (_queue q)) as [[item rest]|] eqn:Hget.
    2:{ apply get_nowait_None in Hget. exists [].
        destruct q as [pq ? ? ? ? ? ? ?]. simpl in *. subst pq.
        split; [done|]. by rewrite app_nil_r, orb_false_r. }
    destruct (get_nowait_Some _ _ _ Hget) as (Hperm & _ & Hl).
    case_bool_decide as Hid.
    + simpl.
      match goal with
      | |- context [set_priority_loop fuel ?q1 id p ?t ?f] =>
          destruct (IH q1 id p t f) as (drained & Hd & Heq)
      end.
      { destruct (_book_data q !! id); simpl; lia. }
      exists (item :: drained). split.
      { rewrite Hperm. constructor. rewrite Hd.
        by destruct (_book_data q !! id). }
      rewrite Heq. simpl.
      assert (bool_decide (id ∈ QueueItem.book_id item
                                 :: map QueueItem.book_id drained) = true) as ->.
      { apply bool_decide_eq_true_2. rewrite Hid. apply elem_of_cons. by left. }
      rewrite orb_true_r. unfold reprioritize at 2.
      rewrite (bool_decide_eq_true_2 (QueueItem.book_id item = id)) by done.
      rewrite <- app_assoc. simpl.
      f_equal. f_equal.
      unfold set_book_priority.
      destruct (_book_data q !! id) as [b|] eqn:Eb; simpl.
      * rewrite lookup_insert_eq, insert_insert_eq.
        by destruct (bool_decide _).
      * rewrite Eb. by destruct (bool_decide _).
    + destruct (IH (set_queue rest q) id p (temp ++ [item]) found)
        as (drained & Hd & Heq).
      { simpl. lia. }
      exists (item :: drained). split.
      { rewrite Hperm. by constructor. }
      rewrite Heq. simpl.
      assert (bool_decide (id ∈ QueueItem.book_id item
                                 :: map QueueItem.book_id drained)
              = bool_decide (id ∈ map QueueItem.book_id drained)) as ->.
      { apply bool_decide_ext. rewrite elem_of_cons. split; [|by right].
        intros [E|?]; [by destruct Hid|done]. }
      unfold reprioritize at 2.
      rewrite (bool_decide_eq_false_2 (QueueItem.book_id item = id)) by done.
      by rewrite <- app_assoc.
Qed.

Lemma set_priority_queued (q : BookQueue) id p :
  _status q !! id = Some QUEUED →
  ∃ drained,
    drained ≡ₚ _queue q
    ∧ set_priority q id p =
      (bool_decide (id ∈ map QueueItem.book_id (_queue q)),
       mkBookQueue (map (reprioritize id p) drained) (_status q)
         (if bool_decide (id ∈ map QueueItem.book_id (_queue q))
          then set_book_priority id p (_book_data q) else _book_data q)
         (_status_timestamps q) (_status_timeout q) (_cancel_flags q)
         (_active_downloads q) (events q)).
Proof.
  intros Hs. unfold set_priority.
  rewrite bool_decide_eq_true_2 by done. simpl.
  destruct (set_priority_loop_spec (length (_queue q)) q id p [] false)
    as (drained & Hd & ->); [done|].
  exists drained. split; [done|].
  assert (bool_decide (id ∈ map QueueItem.book_id drained)
          = bool_decide (id ∈ map QueueItem.book_id (_queue q))) as ->.
  { apply bool_decide_ext. by rewrite Hd. }
  unfold put_all, set_queue. simpl. by rewrite foldl_put.
Qed.


(** ** [refresh] *)

Section refresh_pass.

(** The file system, the clock reading taken when the pass starts and the
    readings taken at the demotions. *)
Context (fs : string → bool) (ct : Z) (now : string → Z).









End refresh_pass.




(** ** Further properties *)

(** X1.  When the entry [get_next] takes off the queue belongs to a
    cancelled job, it calls itself with [_lock] still held: the call returns
    [None] if that entry was the only one, and never returns if the queue
    holds another entry. *)
Theorem get_next_cancelled_head (q : BookQueue) (m : QueueItem.t)
    (rest : list QueueItem.t) :
  PriorityQueue.get_nowait (_queue q) = Some (m, rest) →
  _status q !! QueueItem.book_id m = Some CANCELLED →
  get_next q =
    if PriorityQueue.empty rest then Returns None (set_queue rest q)
    else Blocks.
Proof.
  intros Hget Hc. unfold get_next, get_next_holding_lock. rewrite Hget. simpl.
  rewrite bool_decide_eq_true_2 by done.
  by destruct rest.
Qed.

Lemma get_next_cancelled_head_witness :
  let q0 :=
    add (add (__init__ 3600) "X" (BookInfo.new "X" "x") 0 1 1)
      "Y" (BookInfo.new "Y" "y") 0 2 2 in
  let q := (cancel_download q0 "X" 3).2 in
  let x := QueueItem.mk "X" 0 1 in
  let y := QueueItem.mk "Y" 0 2 in
  PriorityQueue.get_nowait (_queue q) = Some (x, [y])
  ∧ _status q !! "X" = Some CANCELLED
  ∧ get_next q = Blocks.
Proof.
  intros q0 q x y.
  assert (PriorityQueue.get_nowait (_queue q) = Some (x, [y])) as Hget
    by (vm_compute; reflexivity).
  assert (_status q !! QueueItem.book_id x = Some CANCELLED) as Hc
    by (vm_compute; reflexivity).
  split; [exact Hget|]. split; [exact Hc|].
  exact (get_next_cancelled_head q x [y] Hget Hc).
Defined.

(** X2.  [update_progress] and [update_download_path] on an id that has
    no metadata return the state they were given. *)
Theorem update_without_metadata_is_ignored (q : BookQueue) (book_id : string)
    (progress : QArith_base.Q) (download_path : string) :
  _book_data q !! book_id = None →
  update_progress q book_id progress = q
  ∧ update_download_path q book_id download_path = q.
Proof.
  intros H. split.
  - by apply update_progress_unknown.
  - by apply update_download_path_unknown.
Qed.

Lemma update_without_metadata_is_ignored_witness :
  let q := add (__init__ 3600) "X" (BookInfo.new "X" "x") 0 1 1 in
  _book_data q !! "ghost" = None
  ∧ update_progress q "ghost" (QArith_base.Qmake 1 2) = q
  ∧ update_download_path q "ghost" "/books/ghost.epub" = q.
Proof.
  intros q.
  assert (_book_data q !! "ghost" = None) as H by (vm_compute; reflexivity).
  split; [exact H|].
  exact (update_without_metadata_is_ignored q "ghost" (QArith_base.Qmake 1 2)
           "/books/ghost.epub" H).
Defined.



Lemma clear_completed_to_remove (m : gmap string QueueStatus) :
  let to_remove :=
    map_fold
      (λ book_id status to_remove,
         if status_in status [DONE; ERROR; CANCELLED]
         then to_remove ++ [book_id] else to_remove)
      [] m in
  (∀ id, id ∈ to_remove ↔
         ∃ s, m !! id = Some s ∧ s ∈ [DONE; ERROR; CANCELLED])
  ∧ length to_remove
    = size (filter (λ kv : string * QueueStatus,
                      kv.2 ∈ [DONE; ERROR; CANCELLED]) m).
Proof.
  simpl.
  apply (map_fold_weak_ind
    (λ (tr : list string) (m : gmap string QueueStatus),
       (∀ id, id ∈ tr ↔ ∃ s, m !! id = Some s ∧ s ∈ [DONE; ERROR; CANCELLED])
       ∧ length tr
         = size (filter (λ kv : string * QueueStatus,
                           kv.2 ∈ [DONE; ERROR; CANCELLED]) m))).
  - split.
    + intros id. split.
      * intros Hin. by apply elem_of_nil in Hin.
      * intros (s & Hs & _). by rewrite lookup_empty in Hs.
    + by rewrite map_filter_empty, map_size_empty.
  - clear m. intros i s m tr Hmi [Hin Hlen]. unfold status_in.
    case_bool_decide as Hs.
    + split.
      * intros id. rewrite elem_of_app, list_elem_of_singleton, Hin.
        destruct (decide (i = id)) as [->|Hne].
        -- rewrite lookup_insert_eq. split; [|by right]. intros _. by exists s.
        -- rewrite lookup_insert_ne by done. split; [|by left].
           intros [?|?]; [done|]. by subst.
      * rewrite length_app, map_filter_insert_True by done. simpl.
        rewrite map_size_insert_None by by rewrite map_lookup_filter_None; left.
        lia.
    + split.
      * intros id. rewrite Hin. destruct (decide (i = id)) as [->|Hne].
        -- rewrite lookup_insert_eq, Hmi. split.
           ++ by intros (s' & ? & _).
           ++ intros (s' & [= <-] & Hs'). done.
        -- by rewrite lookup_insert_ne.
      * rewrite map_filter_insert_False by done.
        by rewrite delete_id.
Qed.

Lemma foldl_forget (l : list string) :
  ∀ q,
    let q' := foldl forget q l in
    (∀ id,
       _status q' !! id
       = (if bool_decide (id ∈ l) then None else _status q !! id)
       ∧ _status_timestamps q' !! id
         = (if bool_decide (id ∈ l) then None else _status_timestamps q !! id)
       ∧ _book_data q' !! id
         = (if bool_decide (id ∈ l) then None else _book_data q !! id)
       ∧ _cancel_flags q' !! id
         = (if bool_decide (id ∈ l) then None else _cancel_flags q !! id)
       ∧ _active_downloads q' !! id
         = (if bool_decide (id ∈ l) then None else _active_downloads q !! id))
    ∧ _queue q' = _queue q
    ∧ events q' = events q
    ∧ _status_timeout q' = _status_timeout q.
Proof.
  induction l as [|x l IH]; intros q; simpl.
  - by split.
  - destruct (IH (forget q x)) as (Hmaps & Hq & He & Hto).
    split; [|by rewrite Hq, He, Hto].
    intros id. destruct (Hmaps id) as (-> & -> & -> & -> & ->).
    destruct (decide (id = x)) as [->|Hne].
    + rewrite (bool_decide_eq_true_2 (x ∈ x :: l))
        by (apply elem_of_cons; by left).
      unfold forget. simpl. rewrite !lookup_delete_eq.
      by destruct (bool_decide (x ∈ l)).
    + assert (bool_decide (id ∈ x :: l) = bool_decide (id ∈ l)) as ->.
      { apply bool_decide_ext. rewrite elem_of_cons. split; [|by right].
        intros [?|?]; done. }
      unfold forget. simpl. by rewrite !lookup_delete_ne.
Qed.

(** X4.  [clear_completed] returns the number of jobs whose status is [done],
    [error] or [cancelled], removes every entry the five dictionaries hold
    for them, and leaves every other job, the queue and the [Event]s as they
    were; an entry such a job still has on the queue stays there. *)
Theorem clear_completed_removes_finished (q : BookQueue) :
  let r := clear_completed q in
  r.1 = size (filter (λ kv : string * QueueStatus,
                        kv.2 ∈ [DONE; ERROR; CANCELLED]) (_status q))
  ∧ (∀ id s,
       _status q !! id = Some s → s ∈ [DONE; ERROR; CANCELLED] →
       _status r.2 !! id = None
       ∧ _status_timestamps r.2 !! id = None
       ∧ _book_data r.2 !! id = None
       ∧ _cancel_flags r.2 !! id = None
       ∧ _active_downloads r.2 !! id = None)
  ∧ (∀ id,
       (∀ s, _status q !! id = Some s → s ∉ [DONE; ERROR; CANCELLED]) →
       _status r.2 !! id = _status q !! id
       ∧ _status_timestamps r.2 !! id = _status_timestamps q !! id
       ∧ _book_data r.2 !! id = _book_data q !! id
       ∧ _cancel_flags r.2 !! id = _cancel_flags q !! id
       ∧ _active_downloads r.2 !! id = _active_downloads q !! id)
  ∧ _queue r.2 = _queue q
  ∧ events r.2 = events q.
Proof.
  intros r. subst r. unfold clear_completed. simpl.
  destruct (clear_completed_to_remove (_status q)) as [Hin Hlen].
  simpl in Hin, Hlen.
  set (to_remove := map_fold _ [] (_status q)) in *.
  destruct (foldl_forget to_remove q) as (Hmaps & Hq & He & _).
  split; [exact Hlen|]. split; [|split; [|by split]].
  - intros id s Hs Hterm. destruct (Hmaps id) as (-> & -> & -> & -> & ->).
    rewrite bool_decide_eq_true_2; [done|]. apply Hin. by exists s.
  - intros id Hkeep. destruct (Hmaps id) as (-> & -> & -> & -> & ->).
    rewrite bool_decide_eq_false_2; [done|].
    intros (s & Hs & Hterm)%Hin. by apply (Hkeep s).
Qed.

(** ** [get_queue_order] *)

Lemma QueueOrderEntry_insert_perm (x : QueueOrderEntry.t) l :
  QueueOrderEntry.insert x l ≡ₚ x :: l.
Proof.
  induction l as [|y l IH]; simpl; [done|].
  destruct (QueueOrderEntry.key_lt x y); [done|].
  rewrite IH. apply perm_swap.
Qed.

Lemma QueueOrderEntry_key_lt_le (x y : QueueOrderEntry.t) :
  (QueueOrderEntry.key_lt x y = true →
   QueueOrderEntry.key_le x y)
  ∧ (QueueOrderEntry.key_lt x y = false → QueueOrderEntry.key_le y x).
Proof.
  unfold QueueOrderEntry.key_lt, QueueOrderEntry.key_le. split; lia.
Qed.

Lemma QueueOrderEntry_insert_sorted (x : QueueOrderEntry.t) l :
  StronglySorted QueueOrderEntry.key_le l →
  StronglySorted QueueOrderEntry.key_le (QueueOrderEntry.insert x l).
Proof.
  induction 1 as [|y l Hl IH Hy]; simpl.
  - repeat constructor.
  - destruct (QueueOrderEntry.key_lt x y) eqn:Hlt.
    + apply QueueOrderEntry_key_lt_le in Hlt.
      constructor; [by constructor|]. constructor; [done|].
      eapply Forall_impl; [exact Hy|]. intros z Hz.
      unfold QueueOrderEntry.key_le in *. lia.
    + apply QueueOrderEntry_key_lt_le in Hlt.
      constructor; [done|].
      rewrite QueueOrderEntry_insert_perm. by constructor.
Qed.

Lemma QueueOrderEntry_sorted_spec (l : list QueueOrderEntry.t) :
  QueueOrderEntry.sorted l ≡ₚ l
  ∧ StronglySorted QueueOrderEntry.key_le (QueueOrderEntry.sorted l).
Proof.
  unfold QueueOrderEntry.sorted.
  induction l as [|x l IH] using rev_ind; simpl.
  - split; [done|constructor].
  - rewrite foldl_app. simpl. destruct IH as [Hp Hs]. split.
    + rewrite QueueOrderEntry_insert_perm, Hp. by rewrite Permutation_cons_append.
    + by apply QueueOrderEntry_insert_sorted.
Qed.

Lemma get_queue_order_loop_spec (fuel : nat) :
  ∀ q temp items,
    length (_queue q) ≤ fuel →
    ∃ drained,
      drained ≡ₚ _queue q
      ∧ get_queue_order_loop fuel q temp items
        = (set_queue [] q, temp ++ drained,
           items ++ omap (order_entry q) drained).
Proof.
  induction fuel as [|fuel IH]; intros q temp items Hlen.
  - exists []. destruct q as [pq ? ? ? ? ? ? ?]. simpl in *.
    destruct pq; [|simpl in Hlen; lia].
    by rewrite !app_nil_r.
  - simpl.
    destruct (PriorityQueue.get_nowait (_queue q)) as [[item rest]|] eqn:Hget.
    2:{ apply get_nowait_None in Hget. exists [].
        destruct q as [pq ? ? ? ? ? ? ?]. simpl in *. subst pq.
        by rewrite !app_nil_r. }
    destruct (get_nowait_Some _ _ _ Hget) as (Hperm & _ & Hl).
    match goal with
    | |- context [get_queue_order_loop fuel ?q1 ?t ?i] =>
        destruct (IH q1 t i) as (drained & Hd & Heq)
    end.
    { simpl. lia. }
    exists (item :: drained). split; [by rewrite Hperm, Hd|].
    rewrite Heq. simpl. unfold order_entry at 2. simpl.
    rewrite <- !app_assoc. simpl.
    f_equal.
    destruct (_book_data q !! QueueItem.book_id item); simpl;
      by rewrite <- ?app_assoc.
Qed.

(** X5.  [get_queue_order] is a read: the queue afterwards holds the entries it
    held before and nothing else of the state changes.  The list it returns
    has one dictionary for each queue entry whose id has metadata, in
    non-decreasing [(priority, added_time)] order. *)
Theorem get_queue_order_is_sorted_snapshot (q : BookQueue) :
  let r := get_queue_order q in
  _queue r.2 ≡ₚ _queue q
  ∧ set_queue (_queue q) r.2 = q
  ∧ r.1 ≡ₚ omap (order_entry q) (_queue q)
  ∧ StronglySorted QueueOrderEntry.key_le r.1.
Proof.
  intros r. subst r. unfold get_queue_order.
  destruct (get_queue_order_loop_spec (length (_queue q)) q [] [])
    as (drained & Hd & ->); [done|].
  simpl. unfold put_all. simpl. rewrite foldl_put. simpl.
  destruct (QueueOrderEntry_sorted_spec (omap (order_entry q) drained))
    as [Hp Hs].
  split; [done|]. split; [by destruct q|].
  split; [|done]. rewrite Hp. by rewrite Hd.
Qed.

(** ** [reorder_queue] *)

Lemma set_book_priority_lookup id p (m : gmap string BookInfo.t) id' :
  set_book_priority id p m !! id'
  = if bool_decide (id' = id) then BookInfo.with_priority p <$> m !! id'
    else m !! id'.
Proof.
  unfold set_book_priority. case_bool_decide as E.
  - subst. destruct (m !! id) as [b|] eqn:Hb; simpl.
    + by rewrite lookup_insert_eq.
    + done.
  - destruct (m !! id); [|done]. by rewrite lookup_insert_ne.
Qed.

Lemma reprioritize_book_data_lookup bp (items : list QueueItem.t) :
  ∀ (m : gmap string BookInfo.t) id,
    reprioritize_book_data bp items m !! id
    = if bool_decide (id ∈ map QueueItem.book_id items)
      then match bp !! id with
           | Some p => BookInfo.with_priority p <$> m !! id
           | None => m !! id
           end
      else m !! id.
Proof.
  unfold reprioritize_book_data.
  induction items as [|x items IH] using rev_ind; intros m id; [done|].
  rewrite foldl_app, map_app. simpl. specialize (IH m).
  set (m' := foldl _ m items) in *.
  assert (bool_decide (id ∈ map QueueItem.book_id items ++ [QueueItem.book_id x])
          = bool_decide (id ∈ map QueueItem.book_id items)
            || bool_decide (id = QueueItem.book_id x)) as ->.
  { apply eq_true_iff_eq.
    rewrite orb_true_iff, !bool_decide_eq_true, elem_of_app,
      list_elem_of_singleton. done. }
  destruct (decide (id = QueueItem.book_id x)) as [->|Hne].
  - rewrite (bool_decide_eq_true_2 (QueueItem.book_id x = QueueItem.book_id x))
      by done.
    rewrite orb_true_r.
    destruct (bp !! QueueItem.book_id x) as [p|] eqn:Hp.
    + rewrite set_book_priority_lookup, IH, Hp.
      rewrite bool_decide_eq_true_2 by done.
      destruct (bool_decide _); [|done].
      by destruct (m !! QueueItem.book_id x).
    + rewrite IH, Hp. by destruct (bool_decide _).
  - rewrite (bool_decide_eq_false_2 (id = QueueItem.book_id x)) by done.
    rewrite orb_false_r, <- IH.
    destruct (bp !! QueueItem.book_id x) as [p|]; [|done].
    rewrite set_book_priority_lookup.
    by rewrite bool_decide_eq_false_2.
Qed.

Lemma reorder_queue_loop_spec (fuel : nat) :
  ∀ q bp items,
    length (_queue q) ≤ fuel →
    ∃ drained,
      drained ≡ₚ _queue q
      ∧ reorder_queue_loop fuel q bp items
        = (mkBookQueue [] (_status q)
             (reprioritize_book_data bp drained (_book_data q))
             (_status_timestamps q) (_status_timeout q) (_cancel_flags q)
             (_active_downloads q) (events q),
           items ++ map (reprioritize_all bp) drained).
Proof.
  induction fuel as [|fuel IH]; intros q bp items Hlen.
  - exists []. destruct q as [pq ? ? ? ? ? ? ?]. simpl in *.
    destruct pq; [|simpl in Hlen; lia].
    by rewrite app_nil_r.
  - simpl.
    destruct (PriorityQueue.get_nowait (_queue q)) as [[item rest]|] eqn:Hget.
    2:{ apply get_nowait_None in Hget. exists [].
        destruct q as [pq ? ? ? ? ? ? ?]. simpl in *. subst pq.
        by rewrite app_nil_r. }
    destruct (get_nowait_Some _ _ _ Hget) as (Hperm & _ & Hl).
    destruct (bp !! QueueItem.book_id item) as [p|] eqn:Hp; simpl;
      [destruct (_book_data q !! QueueItem.book_id item) as [b|] eqn:Hb; simpl|];
      (match goal with
       | |- context [reorder_queue_loop fuel ?q1 bp ?t] =>
           destruct (IH q1 bp t) as (drained & Hd & Heq); [simpl; lia|]
       end);
      exists (item :: drained); simpl in Hd;
      (split; [by rewrite Hperm, Hd|]);
      rewrite Heq; simpl; rewrite <- app_assoc; simpl;
      unfold reprioritize_all at 2; rewrite Hp;
      unfold set_book_priority; rewrite ?Hb; done.
Qed.


(** ** The comparison of queue entries *)

(** X7.  [QueueItem.__lt__] is a strict weak order, as a heap needs: no
    entry is below itself, two entries are never below each other, the
    comparison is transitive, and two entries of which neither is below the
    other have the same priority and the same [added_time]. *)
Theorem QueueItem_lt_strict_weak_order :
  (∀ a, QueueItem.__lt__ a a = false)
  ∧ (∀ a b, QueueItem.__lt__ a b = true → QueueItem.__lt__ b a = false)
  ∧ (∀ a b c,
       QueueItem.__lt__ a b = true → QueueItem.__lt__ b c = true →
       QueueItem.__lt__ a c = true)
  ∧ (∀ a b,
       QueueItem.__lt__ a b = false ∧ QueueItem.__lt__ b a = false ↔
       QueueItem.priority a = QueueItem.priority b
       ∧ QueueItem.added_time a = QueueItem.added_time b).
Proof.
  unfold QueueItem.__lt__. split; [|split; [|split]].
  - intros a. rewrite Z.eqb_refl. simpl. apply Z.ltb_irrefl.
  - intros a b.
    destruct (Z.eqb_spec (QueueItem.priority a) (QueueItem.priority b));
      destruct (Z.eqb_spec (QueueItem.priority b) (QueueItem.priority a));
      simpl; lia.
  - intros a b c.
    destruct (Z.eqb_spec (QueueItem.priority a) (QueueItem.priority b));
      destruct (Z.eqb_spec (QueueItem.priority b) (QueueItem.priority c));
      destruct (Z.eqb_spec (QueueItem.priority a) (QueueItem.priority c));
      simpl; lia.
  - intros a b.
    destruct (Z.eqb_spec (QueueItem.priority a) (QueueItem.priority b));
      destruct (Z.eqb_spec (QueueItem.priority b) (QueueItem.priority a));
      simpl; lia.
Qed.

(** ** Updates of the metadata *)




(** ** [get_status] *)

Lemma get_status_fold (st : gmap string QueueStatus)
    (bd : gmap string BookInfo.t) :
  ∀ s id,
    map_fold
      (λ book_id status (result : QueueStatus → gmap string BookInfo.t),
         match bd !! book_id with
         | Some b =>
             λ s, if bool_decide (s = status)
                  then <[book_id := b]> (result s) else result s
         | None => result
         end)
      (λ _, ∅) st s !! id
    = if bool_decide (st !! id = Some s) then bd !! id else None.
Proof.
  refine (map_fold_weak_ind
    (λ (r : QueueStatus → gmap string BookInfo.t) (m : gmap string QueueStatus),
       ∀ s id, r s !! id
               = if bool_decide (m !! id = Some s) then bd !! id else None)
    _ _ _ _ st).
  - intros s id. by rewrite !lookup_empty.
  - intros i x m r Hmi IH s id.
    destruct (bd !! i) as [b|] eqn:Hb.
    + case_bool_decide as Hs.
      * subst s. destruct (decide (i = id)) as [->|Hne].
        -- rewrite !lookup_insert_eq.
           by rewrite bool_decide_eq_true_2.
        -- rewrite !lookup_insert_ne by done. apply IH.
      * rewrite IH. destruct (decide (i = id)) as [->|Hne].
        -- rewrite lookup_insert_eq, Hmi.
           rewrite !bool_decide_eq_false_2; [done|congruence|done].
        -- by rewrite lookup_insert_ne.
    + rewrite IH. destruct (decide (i = id)) as [->|Hne].
      * rewrite lookup_insert_eq, Hmi, Hb.
        by repeat case_bool_decide.
      * by rewrite lookup_insert_ne.
Qed.

Lemma get_status_Returns q fs ct now result q' :
  get_status q fs ct now = Returns result q' →
  refresh q fs ct now = Returns () q'
  ∧ ∀ s id,
      result s !! id
      = if bool_decide (_status q' !! id = Some s) then _book_data q' !! id
        else None.
Proof.
  unfold get_status.
  destruct (refresh q fs ct now) as [[] q1| |] eqn:Hr; try done.
  intros [= <- <-]. split; [done|]. apply get_status_fold.
Qed.

(** X9.  The dictionary [get_status] returns holds a job under a status
    exactly when, after the reaper pass the call starts with, the job has
    that status and has metadata; so no job is listed under two statuses,
    and a job without metadata is listed nowhere. *)
Theorem get_status_groups_by_status (q : BookQueue)
    (path_exists : string → bool) (current_time : Z) (now : string → Z)
    (result : QueueStatus → gmap string BookInfo.t) (q' : BookQueue) :
  get_status q path_exists current_time now = Returns result q' →
  refresh q path_exists current_time now = Returns () q'
  ∧ (∀ s id b,
       result s !! id = Some b ↔
       _status q' !! id = Some s ∧ _book_data q' !! id = Some b)
  ∧ (∀ s1 s2 id,
       is_Some (result s1 !! id) → is_Some (result s2 !! id) → s1 = s2).
Proof.
  intros (Hr & Hres)%get_status_Returns. split; [done|].
  assert (∀ s id b,
            result s !! id = Some b ↔
            _status q' !! id = Some s ∧ _book_data q' !! id = Some b) as Hiff.
  { intros s id b. rewrite Hres. case_bool_decide as Hs.
    - split; [done|]. by intros [_ ?].
    - split; [done|]. by intros [? _]. }
  split; [exact Hiff|].
  intros s1 s2 id [b1 H1] [b2 H2].
  apply Hiff in H1 as [H1 _]. apply Hiff in H2 as [H2 _]. congruence.
Qed.

Lemma get_status_groups_by_status_witness :
  let q :=
    update_status
      (add (add (__init__ 3600) "X" (BookInfo.new "X" "x") 0 1 1)
         "Y" (BookInfo.new "Y" "y") 0 2 2)
      "Y" DOWNLOADING 3 in
  ∃ result q',
    get_status q (λ _, true) 4 (λ _, 4%Z) = Returns result q'
    ∧ refresh q (λ _, true) 4 (λ _, 4%Z) = Returns () q'
    ∧ (∀ s id b,
         result s !! id = Some b ↔
         _status q' !! id = Some s ∧ _book_data q' !! id = Some b)
    ∧ (∀ s1 s2 id,
         is_Some (result s1 !! id) → is_Some (result s2 !! id) → s1 = s2).
Proof.
  intros q.
  destruct (get_status q (λ _, true) 4 (λ _, 4%Z)) as [result q'| |] eqn:Hg;
    [|by vm_compute in Hg..].
  exists result, q'. split; [done|].
  exact (get_status_groups_by_status q (λ _, true) 4 (λ _, 4%Z) result q' Hg).
Defined.



(** ** [clear_completed], again *)

Lemma clear_completed_none_left (q : BookQueue) id s :
  _status (clear_completed q).2 !! id = Some s →
  _status q !! id = Some s ∧ s ∉ [DONE; ERROR; CANCELLED].
Proof.
  unfold clear_completed. simpl.
  destruct (clear_completed_to_remove (_status q)) as [Hin _]. simpl in Hin.
  set (to_remove := map_fold _ [] (_status q)) in *.
  destruct (foldl_forget to_remove q) as (Hmaps & _).
  destruct (Hmaps id) as [-> _]. case_bool_decide as Hid; [done|].
  intros Hs. split; [done|]. intros Hterm. apply Hid, Hin. by exists s.
Qed.

(** X11.  [clear_completed] leaves no job with status [done], [error] or
    [cancelled], and a second call right after the first removes nothing:
    it returns 0 and the state it was given. *)
Theorem clear_completed_idempotent (q : BookQueue) :
  (∀ id s,
     _status (clear_completed q).2 !! id = Some s →
     s ∉ [DONE; ERROR; CANCELLED])
  ∧ clear_completed (clear_completed q).2 = (0, (clear_completed q).2).
Proof.
  split; [intros id s Hs; by apply (clear_completed_none_left q id s)|].
  set (q1 := (clear_completed q).2).
  unfold clear_completed at 1.
  destruct (clear_completed_to_remove (_status q1)) as [Hin _]. simpl in Hin.
  set (to_remove := map_fold _ [] (_status q1)) in *.
  assert (to_remove = []) as ->; [|done].
  destruct to_remove as [|x l]; [done|]. exfalso.
  destruct (proj1 (Hin x)) as (s & Hs & Hterm); [apply elem_of_cons; by left|].
  by apply (clear_completed_none_left q x s).
Qed.

(** ** How the operations compose *)

Lemma reprioritize_singleton id p (item : QueueItem.t) :
  reprioritize_all {[id := p]} item = reprioritize id p item.
Proof.
  unfold reprioritize_all, reprioritize. case_bool_decide as E.
  - by rewrite E, lookup_singleton_eq.
  - by rewrite lookup_singleton_ne.
Qed.

(** X12.  On a job whose status is [queued], [set_priority] does what
    [reorder_queue] does with the one-entry dictionary for that job: the
    two leave the same entries on the queue and, apart from the queue, the
    same state.  ([reorder_queue] never looks at the status;
    [set_priority] changes nothing for another status.) *)
Theorem set_priority_as_reorder_queue (q : BookQueue) (book_id : string)
    (new_priority : Z) :
  _status q !! book_id = Some QUEUED →
  let r1 := set_priority q book_id new_priority in
  let r2 := reorder_queue q {[book_id := new_priority]} in
  _queue r1.2 ≡ₚ _queue r2.2
  ∧ set_queue [] r1.2 = set_queue [] r2.2
  ∧ r1.1 = bool_decide (book_id ∈ map QueueItem.book_id (_queue q)).
Proof.
  intros Hs r1 r2. subst r1 r2.
  destruct (set_priority_queued q book_id new_priority Hs)
    as (d1 & Hd1 & ->).
  unfold reorder_queue.
  destruct (reorder_queue_loop_spec (length (_queue q)) q
              {[book_id := new_priority]} [])
    as (d2 & Hd2 & ->); [done|].
  simpl. unfold put_all, set_queue. simpl. rewrite foldl_put. simpl.
  split; [|split; [|done]].
  - assert (∀ l, map (reprioritize_all {[book_id := new_priority]}) l
                 = map (reprioritize book_id new_priority) l) as ->.
    { induction l as [|x l IH]; [done|]. simpl.
      by rewrite reprioritize_singleton, IH. }
    by rewrite Hd1, Hd2.
  - f_equal. apply map_eq. intros id.
    rewrite reprioritize_book_data_lookup.
    assert (bool_decide (id ∈ map QueueItem.book_id d2)
            = bool_decide (id ∈ map QueueItem.book_id (_queue q))) as ->.
    { apply bool_decide_ext. by rewrite Hd2. }
    destruct (decide (id = book_id)) as [->|Hne].
    + rewrite lookup_singleton_eq.
      destruct (bool_decide _); [|done].
      rewrite set_book_priority_lookup. by rewrite bool_decide_eq_true_2.
    + rewrite lookup_singleton_ne by done.
      assert ((if bool_decide (id ∈ map QueueItem.book_id (_queue q))
               then _book_data q !! id else _book_data q !! id)
              = _book_data q !! id) as -> by by destruct (bool_decide _).
      destruct (bool_decide _); [|done].
      rewrite set_book_priority_lookup. by rewrite bool_decide_eq_false_2.
Qed.

Lemma set_priority_as_reorder_queue_witness :
  let q :=
    add (add (__init__ 3600) "A" (BookInfo.new "A" "a") 5 1 1)
      "B" (BookInfo.new "B" "b") 1 2 2 in
  let r1 := set_priority q "A" 0 in
  let r2 := reorder_queue q {["A" := 0%Z]} in
  _status q !! "A" = Some QUEUED
  ∧ _queue r1.2 ≡ₚ _queue r2.2
  ∧ set_queue [] r1.2 = set_queue [] r2.2
  ∧ r1.1 = bool_decide ("A" ∈ map QueueItem.book_id (_queue q)).
Proof.
  intros q r1 r2.
  assert (_status q !! "A" = Some QUEUED) as Hs by (vm_compute; reflexivity).
  split; [exact Hs|].
  exact (set_priority_as_reorder_queue q "A" 0 Hs).
Defined.

(** X13.  Cancelling a queued job does not take its entry off the queue:
    [cancel_download] leaves the queue as it is, and [get_queue_order]
    afterwards still lists the entry, with its priority and [added_time],
    now with the status [cancelled]. *)
Theorem cancelled_job_stays_in_queue_order (q : BookQueue) (book_id : string)
    (now : Z) (item : QueueItem.t) (b : BookInfo.t) :
  _status q !! book_id = Some QUEUED →
  item ∈ _queue q →
  QueueItem.book_id item = book_id →
  _book_data q !! book_id = Some b →
  let q1 := (cancel_download q book_id now).2 in
  _queue q1 = _queue q
  ∧ QueueOrderEntry.mk book_id (BookInfo.title b) (BookInfo.author b)
      (QueueItem.priority item) (QueueItem.added_time item) CANCELLED
    ∈ (get_queue_order q1).1.
Proof.
  intros Hs Hitem Hid Hb q1.
  assert (q1 = _update_status q book_id CANCELLED now) as Hq1.
  { subst q1. unfold cancel_download.
    rewrite bool_decide_eq_false_2 by (rewrite Hs; done).
    by rewrite bool_decide_eq_true_2. }
  rewrite Hq1. split; [done|].
  unfold get_queue_order.
  destruct (get_queue_order_loop_spec
              (length (_queue (_update_status q book_id CANCELLED now)))
              (_update_status q book_id CANCELLED now) [] [])
    as (drained & Hd & ->); [done|].
  simpl.
  destruct (QueueOrderEntry_sorted_spec
              (omap (order_entry (_update_status q book_id CANCELLED now))
                 drained)) as [Hp _].
  rewrite Hp. apply list_elem_of_omap. exists item. split.
  - rewrite Hd. done.
  - unfold order_entry. simpl. rewrite Hid, Hb, lookup_insert_eq. done.
Qed.

Lemma cancelled_job_stays_in_queue_order_witness :
  let q := add (__init__ 3600) "X" (BookInfo.new "X" "x") 4 1 1 in
  let item := QueueItem.mk "X" 4 1 in
  let b := BookInfo.with_priority 4 (BookInfo.new "X" "x") in
  let q1 := (cancel_download q "X" 2).2 in
  _status q !! "X" = Some QUEUED
  ∧ _queue q1 = _queue q
  ∧ QueueOrderEntry.mk "X" "x" None 4 1 CANCELLED ∈ (get_queue_order q1).1.
Proof.
  intros q item b q1.
  assert (_status q !! "X" = Some QUEUED) as Hs by (vm_compute; reflexivity).
  split; [exact Hs|].
  apply (cancelled_job_stays_in_queue_order q "X" 2 item b Hs).
  - apply elem_of_cons. by left.
  - reflexivity.
  - vm_compute. reflexivity.
Defined.

(** ** The timeout *)



(** ** Two reaper passes *)



Section refresh_twice.

Context (fs : string → bool) (ct : Z) (now : string → Z).



End refresh_twice.



(** ** Invariants of the registry *)

















(** ** Cancellation flags *)

(** What a call does to the flags and to the [Event] objects: it keeps the
    objects and creates no flag, or it creates one unset object and makes
    it the flag of one job, or it sets the flag of the job it names. *)
Lemma run_call_flags_effect (q : BookQueue) (c : call) (q' : BookQueue) :
  run_call q c = Some q' →
  (events q' = events q
   ∧ ∀ id e, _cancel_flags q' !! id = Some e → _cancel_flags q !! id = Some e)
  ∨ (∃ id, events q' = events q ++ [false]
           ∧ _cancel_flags q' = <[id := length (events q)]> (_cancel_flags q))
  ∨ (∃ id e, _cancel_flags q !! id = Some e
             ∧ events q' = <[e := true]> (events q)
             ∧ _cancel_flags q' = _cancel_flags q).
Proof.
  assert (∀ q1, same_flags q q1 →
            events q1 = events q
            ∧ ∀ id e, _cancel_flags q1 !! id = Some e →
                      _cancel_flags q !! id = Some e) as Hsame.
  { by intros q1 (-> & _ & ->). }
  destruct c; simpl.
  - intros [= <-]. left. apply Hsame. unfold add.
    by destruct (match _status q !! _ with Some _ => _ | None => _ end).
  - unfold get_next.
    destruct (PriorityQueue.get_nowait (_queue q)) as [[m rest]|];
      [|intros [= <-]; by left].
    simpl. case_bool_decide.
    + unfold get_next_holding_lock. simpl.
      destruct (PriorityQueue.get_nowait rest); [done|].
      intros [= <-]. by left.
    + intros [= <-]. right. left. by exists (QueueItem.book_id m).
  - intros [= <-]. left. unfold update_status.
    destruct (status_in _ _); simpl; [|done]. split; [done|].
    by intros id e [_ ?]%lookup_delete_Some.
  - intros [= <-]. left. apply Hsame. unfold update_download_path.
    by destruct (_book_data q !! _).
  - intros [= <-]. left. apply Hsame. unfold update_progress.
    by destruct (_book_data q !! _).
  - unfold get_status.
    destruct (refresh q path_exists current_time now) as [u q1| |] eqn:Hr;
      try done.
    intros [= <-]. left. apply Hsame. by eapply refresh_flags.
  - intros [= <-]. left. apply Hsame. unfold get_queue_order.
    pose proof (get_queue_order_loop_flags (length (_queue q)) q [] []) as Hf.
    by destruct (get_queue_order_loop _ _ _ _) as [[q1 t1] i1].
  - intros [= <-]. unfold cancel_download.
    repeat case_bool_decide; simpl; try by left.
    destruct (_cancel_flags q !! book_id) as [e|] eqn:He; [|by left].
    right. right. by exists book_id, e.
  - intros [= <-]. left. apply Hsame. unfold set_priority.
    destruct (negb _); [done|].
    pose proof (set_priority_loop_flags (length (_queue q)) q book_id
                  new_priority [] false) as Hf.
    by destruct (set_priority_loop _ _ _ _ _ _) as [[q1 t1] f1].
  - intros [= <-]. left. apply Hsame. unfold reorder_queue.
    pose proof (reorder_queue_loop_flags (length (_queue q)) q
                  book_priorities []) as Hf.
    by destruct (reorder_queue_loop _ _ _ _) as [q1 t1].
  - intros [= <-]. by left.
  - intros [= <-]. left.
    destruct (foldl_forget
                (map_fold
                   (λ book_id status to_remove,
                      if status_in status [DONE; ERROR; CANCELLED]
                      then to_remove ++ [book_id] else to_remove)
                   [] (_status q)) q) as (Hmaps & _ & He & _).
    split; [exact He|]. intros id e.
    destruct (Hmaps id) as (_ & _ & _ & Hf & _). rewrite Hf.
    by destruct (bool_decide _).
  - destruct (refresh q path_exists current_time now) as [u q1| |] eqn:Hr;
      try done.
    intros [= <-]. left. apply Hsame. by eapply refresh_flags.
  - intros [= <-]. by left.
Qed.



Lemma run_call_is_set_mono (q : BookQueue) (c : call) (q' : BookQueue) e :
  run_call q c = Some q' → is_set q e = true → is_set q' e = true.
Proof.
  unfold is_set.
  intros [[He _]|[(id & He & _)|(id & e0 & _ & He & _)]]%run_call_flags_effect;
    rewrite He; [done| |].
  - destruct (events q !! e) as [b|] eqn:Hb; [|done]. simpl. intros ->.
    by rewrite (lookup_app_l_Some _ _ _ _ Hb).
  - destruct (events q !! e) as [b|] eqn:Hb; [|done]. simpl. intros ->.
    destruct (decide (e0 = e)) as [->|Hne].
    + rewrite list_lookup_insert_eq; [done|]. by eapply lookup_lt_Some.
    + rewrite list_lookup_insert_ne by done. exact (f_equal (default false) Hb).
Qed.



(** X18. No method clears an [Event]: a flag that reads as signaled still
    reads as signaled after any run of calls that return, whatever became
    of its job in the registry. *)
Theorem signaled_flag_stays_signaled
    (q : BookQueue) (cs : list call) (q' : BookQueue) (e : Event) :
  run q cs = Some q' → is_set q e = true → is_set q' e = true.
Proof.
  revert q'. induction cs as [|c cs IH] using rev_ind; intros q'.
  - by intros [= <-].
  - unfold run. rewrite foldl_app. simpl.
    destruct (foldl _ (Some q) cs) as [q1|] eqn:E; [|done]. simpl.
    intros Hc Hset. eapply run_call_is_set_mono; [exact Hc|]. by apply IH.
Qed.

Lemma signaled_flag_stays_signaled_witness :
  let q := default (__init__ 3600)
             (run (__init__ 3600)
                [Add "X" (BookInfo.new "X" "x") 0 1 2;
                 GetNext;
                 UpdateStatus "X" DOWNLOADING 5;
                 CancelDownload "X" 6]) in
  let q' := default q
              (run q [ClearCompleted;
                      Add "X" (BookInfo.new "X" "x") 0 7 8;
                      GetNext]) in
  _cancel_flags q' !! "X" = Some 1 ∧ is_set q' 0 = true.
Proof.
  intros q q'. split; [by vm_compute|].
  apply (signaled_flag_stays_signaled q
           [ClearCompleted; Add "X" (BookInfo.new "X" "x") 0 7 8; GetNext]).
  - by vm_compute.
  - by vm_compute.
Defined.

(** ** When the reaper fails *)




(** * The retry loops of [cloudflare_bypasser.py] *)

Lemma _bypass_loop_spec (max_retries DEFAULT_SLEEP : Z) :
  ∀ (world : list observation) (k : nat) (log : list action),
    Z.to_nat max_retries - k < length world →
    ∃ n,
      k ≤ n ∧ n ≤ k `max` Z.to_nat max_retries
      ∧ _bypass_loop world max_retries DEFAULT_SLEEP (Z.of_nat k) log
        = Some (log ++ schedule DEFAULT_SLEEP k (n - k)).
Proof.
  induction world as [|o world IH]; intros k log Hlen; simpl in *; [lia|].
  destruct (page_bypassed o).
  { exists k. rewrite Nat.sub_diag. unfold schedule. simpl.
    rewrite app_nil_r. repeat split; lia. }
  destruct (Z.geb_spec (Z.of_nat k) max_retries) as [Hge|Hlt].
  { exists k. rewrite Nat.sub_diag. unfold schedule. simpl.
    rewrite app_nil_r. repeat split; lia. }
  rewrite Z.add_simpl_r.
  assert ((if (Z.min (DEFAULT_SLEEP * Z.of_nat k) 15 >? 0)%Z
           then log ++ [Sleep (Z.min (DEFAULT_SLEEP * Z.of_nat k) 15)]
           else log) ++ [Call (Z.of_nat k `mod` 3)%Z]
          = log ++ attempt_actions DEFAULT_SLEEP k) as ->.
  { unfold attempt_actions.
    destruct (Z.min (DEFAULT_SLEEP * Z.of_nat k) 15 >? 0)%Z; simpl;
      by rewrite <- ?app_assoc. }
  assert (∀ n, S k ≤ n →
            schedule DEFAULT_SLEEP k (n - k)
            = attempt_actions DEFAULT_SLEEP k
              ++ schedule DEFAULT_SLEEP (S k) (n - S k)) as Hsched.
  { intros n Hn. replace (n - k) with (S (n - S k)) by lia. done. }
  assert (_bypass_loop world max_retries DEFAULT_SLEEP (Z.of_nat k + 1)
            (log ++ attempt_actions DEFAULT_SLEEP k)
          = _bypass_loop world max_retries DEFAULT_SLEEP (Z.of_nat (S k))
              (log ++ attempt_actions DEFAULT_SLEEP k)) as Hnext.
  { f_equal. lia. }
  destruct (IH (S k) (log ++ attempt_actions DEFAULT_SLEEP k))
    as (n & Hkn & Hn & Hloop); [lia|].
  destruct (method_result o) as [[|]|].
  - exists (S k). rewrite (Hsched (S k)) by lia. rewrite Nat.sub_diag.
    unfold schedule at 1. simpl. rewrite app_nil_r. repeat split; lia.
  - exists n. rewrite Hnext, Hloop, Hsched, app_assoc by lia.
    repeat split; lia.
  - exists n. rewrite Hnext, Hloop, Hsched, app_assoc by lia.
    repeat split; lia.
Qed.

(** X20. [_bypass] stops: given the answers of [max_retries + 1] rounds it
    returns, after at most [max_retries] attempts (none if [max_retries]
    is not positive).  Attempt number [k] (from 0) calls the method of
    index [k mod 3], after a sleep of [min(DEFAULT_SLEEP * k, 15)] seconds
    when that is positive: so the first attempt is made at once. *)
Theorem _bypass_attempts
    (world : list observation) (max_retries DEFAULT_SLEEP : Z) :
  Z.to_nat max_retries < length world →
  ∃ n,
    n ≤ Z.to_nat max_retries
    ∧ _bypass world max_retries DEFAULT_SLEEP
      = Some (schedule DEFAULT_SLEEP 0 n).
Proof.
  intros Hlen.
  destruct (_bypass_loop_spec max_retries DEFAULT_SLEEP world 0 [])
    as (n & _ & Hn & Hloop); [lia|].
  exists n. rewrite Nat.sub_0_r in Hloop. split; [lia|]. exact Hloop.
Qed.

Lemma _bypass_attempts_witness :
  ∃ n,
    n ≤ 3
    ∧ _bypass [mkObservation false (Some false); mkObservation false None;
               mkObservation false (Some true); mkObservation true None] 3 5
      = Some (schedule 5 0 n).
Proof.
  apply (_bypass_attempts
           [mkObservation false (Some false); mkObservation false None;
            mkObservation false (Some true); mkObservation true None] 3 5).
  simpl. lia.
Defined.



(** X22. The bound [retry] stops [_get] only in the [except] branch: a
    run of attempts none of which gets the page, and in which the attempt
    that runs with [retry == 0] does not raise (or there is none, [retry]
    being negative), neither returns nor raises, however many attempts
    are made and whatever the later ones do. *)
Theorem _get_retries_without_bound (world : list attempt) (retry : Z) :
  existsb is_page world = false →
  (retry < 0)%Z ∨ world !! Z.to_nat retry = Some Not_bypassed →
  _get world retry = None.
Proof.
  revert retry. induction world as [|a world IH]; intros retry Hno Hz; [done|].
  simpl in Hno. apply orb_false_iff in Hno as [Ha Hno].
  assert (retry ≠ 0%Z → _get world (retry - 1) = None) as Hrec.
  { intros Hne. apply IH; [done|].
    destruct Hz as [Hneg|Hat]; [left; lia|].
    destruct (Z.lt_trichotomy retry 0) as [?|[->|Hpos]]; [left; lia|done|].
    right. replace (Z.to_nat retry) with (S (Z.to_nat (retry - 1))) in Hat
      by lia.
    done. }
  destruct a; simpl; try done.
  - destruct (Z.eq_dec retry 0%Z) as [->|Hne]; [|by apply Hrec].
    apply IH; [done|left; lia].
  - destruct (Z.eqb_spec retry 0) as [->|Hne]; [|by apply Hrec].
    by destruct Hz as [?|?].
Qed.

Lemma _get_retries_without_bound_witness :
  _get [Not_bypassed; Not_bypassed; Exception_raised; Exception_raised;
        Not_bypassed; Exception_raised] 1 = None.
Proof.
  apply (_get_retries_without_bound
           [Not_bypassed; Not_bypassed; Exception_raised; Exception_raised;
            Not_bypassed; Exception_raised] 1).
  - reflexivity.
  - right. reflexivity.
Defined.
